(** * ATX disk-image handling (atx.c): a shallow embedding and its properties

    The development follows [src/atx.c] of sdrive-max: the image loader
    [loadAtxFile], which validates the file header and builds the per-drive
    track index, and the sector reader [loadAtxSector], which locates the
    requested sector on its track, fills in weak data and emulates the timing
    of the drive.

    The target is an 8-bit AVR ([avr/io.h]): [int] and [unsigned int] are 16
    bits wide, [u08], [u16], [u32] are the unsigned types of [avrlibtypes.h].
    Machine integers are values of [Z] with the wrap-around written out. *)

From Stdlib Require Import ZArith List Bool Lia.
From stdpp Require Import base list.
Import ListNotations.
Local Open Scope Z_scope.

(** ** Machine integers *)

Definition u08 (x : Z) : Z := x mod 256.
Definition u16 (x : Z) : Z := x mod 65536.
Definition u32 (x : Z) : Z := x mod 4294967296.

(** Conversion to [signed char] and to the 16-bit [int] (two's complement). *)
Definition s08 (x : Z) : Z :=
  let y := x mod 256 in if y <? 128 then y else y - 256.
Definition s16 (x : Z) : Z :=
  let y := x mod 65536 in if y <? 32768 then y else y - 65536.

(** ** Constants of atx.c *)

Definition AU_FULL_ROTATION : Z := 26042.

(** The arguments given to [_delay_ms]; the values are floating-point
    constants of the source (2.4, 5.3, 10 and 1 millisecond). *)
Inductive delay : Type :=
| MS_DRIVE_REQUEST_DELAY
| MS_TRACK_STEP
| MS_HEAD_SETTLE
| MS_ONE.

(** ** The structures of atx.h

    Only the fields that atx.c reads are kept.  The decoders below
    ([Platform]) give the layout. *)

Record atxFileHeader : Type := mkFileHeader {
  signature : list Z;
  version : Z;
  minVersion : Z;
  density : Z;
  startData : Z
}.

Record atxTrackHeader : Type := mkTrackHeader {
  size : Z;
  trackNumber : Z;
  sectorCount : Z;
  headerSize : Z
}.

Record atxSectorListHeader : Type := mkSectorListHeader {
  next : Z
}.

Record atxSectorHeader : Type := mkSectorHeader {
  number : Z;
  status : Z;
  timev : Z;
  data : Z
}.

Record atxExtendedSectorData : Type := mkExtendedSectorData {
  ext_type : Z;
  ext_sectorIndex : Z;
  ext_data : Z
}.

(** ** What atx.c takes from its environment

    [atx.h] and [fat.h] are not part of the sources at hand, nor are the
    timer and the C library: the version constant, the structure sizes and
    layouts, the byte-range reader [faccess_offset], the timer register
    [TCNT1], [rand] and the floating-point delay computation are parameters
    of the development. *)

Record Platform : Type := mkPlatform {
  ATX_VERSION : Z;
  sizeof_atxFileHeader : Z;
  sizeof_atxTrackHeader : Z;
  sizeof_atxSectorListHeader : Z;
  sizeof_atxSectorHeader : Z;
  sizeof_atxExtendedSectorData : Z;
  (** the casts [(struct ... * ) atari_sector_buffer] *)
  as_atxFileHeader : list Z -> atxFileHeader;
  as_atxTrackHeader : list Z -> atxTrackHeader;
  as_atxSectorListHeader : list Z -> atxSectorListHeader;
  as_atxSectorHeader : list Z -> atxSectorHeader;
  as_atxExtendedSectorData : list Z -> atxExtendedSectorData;
  (** [faccess_offset(FILE_ACCESS_READ, offset, ncount)] on the mounted
      image: the value returned and the sector buffer it leaves, from the
      sector buffer it finds *)
  file_read : Z -> Z -> list Z -> Z * list Z;
  (** the value of [TCNT1] at the k-th time it is sampled *)
  TCNT1 : nat -> Z;
  (** the value of the k-th call of [rand()] *)
  rand_value : nat -> Z;
  (** the number of iterations of the final delay loop
      [for (i=0; i < delayMs; i++)], a floating-point computation from
      [gLastAngle], [headPosition] and [t2] *)
  delay_iterations : Z -> Z -> Z -> nat
}.

(** ** Program state *)

(** What the program does to the outside, in the order it does it. *)
Inductive event : Type :=
| Delay (d : delay)
| HeadSample (v : Z)
| FileRead (offset ncount : Z)
| RandCall.

Record state : Type := mkState {
  atari_sector_buffer : list Z;      (* unsigned char [256] *)
  last_angle_returned : Z;
  gBytesPerSector : Z;
  gSectorsPerTrack : Z;
  gTrackInfo : list (list Z);         (* [2][40], the offset fields *)
  gLastAngle : Z;
  gCurrentHeadTrack : Z;
  out_sectorSize : Z;                 (* the object [sectorSize] points to *)
  out_status : Z;                     (* the object [status] points to *)
  clock : nat;                        (* samples of TCNT1 taken so far *)
  seed : nat;                         (* calls of rand() so far *)
  trace : list event
}.

Definition set_buffer (b : list Z) (s : state) : state :=
  mkState b (last_angle_returned s) (gBytesPerSector s) (gSectorsPerTrack s)
    (gTrackInfo s) (gLastAngle s) (gCurrentHeadTrack s) (out_sectorSize s)
    (out_status s) (clock s) (seed s) (trace s).
Definition set_last_angle_returned (v : Z) (s : state) : state :=
  mkState (atari_sector_buffer s) v (gBytesPerSector s) (gSectorsPerTrack s)
    (gTrackInfo s) (gLastAngle s) (gCurrentHeadTrack s) (out_sectorSize s)
    (out_status s) (clock s) (seed s) (trace s).
Definition set_gBytesPerSector (v : Z) (s : state) : state :=
  mkState (atari_sector_buffer s) (last_angle_returned s) v (gSectorsPerTrack s)
    (gTrackInfo s) (gLastAngle s) (gCurrentHeadTrack s) (out_sectorSize s)
    (out_status s) (clock s) (seed s) (trace s).
Definition set_gSectorsPerTrack (v : Z) (s : state) : state :=
  mkState (atari_sector_buffer s) (last_angle_returned s) (gBytesPerSector s) v
    (gTrackInfo s) (gLastAngle s) (gCurrentHeadTrack s) (out_sectorSize s)
    (out_status s) (clock s) (seed s) (trace s).
Definition set_gTrackInfo (t : list (list Z)) (s : state) : state :=
  mkState (atari_sector_buffer s) (last_angle_returned s) (gBytesPerSector s)
    (gSectorsPerTrack s) t (gLastAngle s) (gCurrentHeadTrack s)
    (out_sectorSize s) (out_status s) (clock s) (seed s) (trace s).
Definition set_gLastAngle (v : Z) (s : state) : state :=
  mkState (atari_sector_buffer s) (last_angle_returned s) (gBytesPerSector s)
    (gSectorsPerTrack s) (gTrackInfo s) v (gCurrentHeadTrack s)
    (out_sectorSize s) (out_status s) (clock s) (seed s) (trace s).
Definition set_gCurrentHeadTrack (v : Z) (s : state) : state :=
  mkState (atari_sector_buffer s) (last_angle_returned s) (gBytesPerSector s)
    (gSectorsPerTrack s) (gTrackInfo s) (gLastAngle s) v
    (out_sectorSize s) (out_status s) (clock s) (seed s) (trace s).
Definition set_out_sectorSize (v : Z) (s : state) : state :=
  mkState (atari_sector_buffer s) (last_angle_returned s) (gBytesPerSector s)
    (gSectorsPerTrack s) (gTrackInfo s) (gLastAngle s) (gCurrentHeadTrack s)
    v (out_status s) (clock s) (seed s) (trace s).
Definition set_out_status (v : Z) (s : state) : state :=
  mkState (atari_sector_buffer s) (last_angle_returned s) (gBytesPerSector s)
    (gSectorsPerTrack s) (gTrackInfo s) (gLastAngle s) (gCurrentHeadTrack s)
    (out_sectorSize s) v (clock s) (seed s) (trace s).
Definition tick_clock (s : state) : state :=
  mkState (atari_sector_buffer s) (last_angle_returned s) (gBytesPerSector s)
    (gSectorsPerTrack s) (gTrackInfo s) (gLastAngle s) (gCurrentHeadTrack s)
    (out_sectorSize s) (out_status s) (S (clock s)) (seed s) (trace s).
Definition tick_seed (s : state) : state :=
  mkState (atari_sector_buffer s) (last_angle_returned s) (gBytesPerSector s)
    (gSectorsPerTrack s) (gTrackInfo s) (gLastAngle s) (gCurrentHeadTrack s)
    (out_sectorSize s) (out_status s) (clock s) (S (seed s)) (trace s).
Definition emit (e : event) (s : state) : state :=
  mkState (atari_sector_buffer s) (last_angle_returned s) (gBytesPerSector s)
    (gSectorsPerTrack s) (gTrackInfo s) (gLastAngle s) (gCurrentHeadTrack s)
    (out_sectorSize s) (out_status s) (clock s) (seed s) (trace s ++ [e]).

(** The globals of atx.c are zero-initialised ([gLastAngle] and
    [gCurrentHeadTrack] explicitly so). *)
Definition initial_state (buffer : list Z) (sz st : Z) : state :=
  mkState buffer 0 0 0 (replicate 2 (replicate 40 0)) 0 0 sz st 0 0 [].

(** ** A monad for C statements: state, [return], undefined behaviour *)

Inductive fault : Type :=
| DivisionByZero
| TrackInfoOutOfBounds (drive track : Z)
| SectorBufferOutOfBounds (i : Z).

Inductive res (A : Type) : Type :=
| Val (a : A)          (* the statement completes *)
| Ret (v : Z)          (* a [return v;] is under way *)
| Fault (f : fault)    (* undefined behaviour *)
| OutOfFuel.           (* the [while (1)] loop did not end within the fuel *)
Arguments Val {A} a.
Arguments Ret {A} v.
Arguments Fault {A} f.
Arguments OutOfFuel {A}.

Definition M (A : Type) : Type := state -> res A * state.

Definition ret {A} (a : A) : M A := fun s => (Val a, s).
Definition bind {A B} (m : M A) (k : A -> M B) : M B :=
  fun s =>
    match m s with
    | (Val a, s') => k a s'
    | (Ret v, s') => (Ret v, s')
    | (Fault f, s') => (Fault f, s')
    | (OutOfFuel, s') => (OutOfFuel, s')
    end.
Definition return_ {A} (v : Z) : M A := fun s => (Ret v, s).
Definition crash {A} (f : fault) : M A := fun s => (Fault f, s).
Definition out_of_fuel {A} : M A := fun s => (OutOfFuel, s).
Definition gets {A} (f : state -> A) : M A := fun s => (Val (f s), s).
Definition modify (f : state -> state) : M unit := fun s => (Val tt, f s).

(** A function call: the value of the [return] statement becomes the value
    of the call. *)
Definition call (body : M Z) : M Z :=
  fun s =>
    match body s with
    | (Ret v, s') => (Val v, s')
    | r => r
    end.

Notation "x <- m ;; k" := (bind m (fun x => k))
  (at level 100, m at next level, right associativity).
Notation "m ;;; k" := (bind m (fun _ => k))
  (at level 100, right associativity).

(** Repeat [body] for i = from, from+1, ... ([n] times), threading [a]. *)
Fixpoint for_loop {A} (n : nat) (i : Z) (body : Z -> A -> M A) (a : A) : M A :=
  match n with
  | O => ret a
  | S n' => a' <- body i a ;; for_loop n' (i + 1) body a'
  end.

Fixpoint repeat_M (n : nat) (m : M unit) : M unit :=
  match n with
  | O => ret tt
  | S n' => m ;;; repeat_M n' m
  end.

(** ** Locals of loadAtxSector *)

(** A sector header of the list whose number is the requested one, as the
    scan loop met it: its index in the list, the header, and whether it
    replaced the running best.  The list of these is a ghost variable. *)
Record occurrence : Type := mkOccurrence {
  occ_index : Z;
  occ_header : atxSectorHeader;
  occ_taken : bool
}.

Record locals : Type := mkLocals {
  tgtTrackNumber : Z;
  tgtSectorNumber : Z;
  headPosition : Z;
  currentFileOffset : Z;
  pTT : Z;
  tgtSectorIndex : Z;
  tgtSectorOffset : Z;
  hasError : bool;
  extendedDataRecords : Z;
  maxSectorOffset : Z;
  weakOffset : Z;
  seen : list occurrence                (* ghost *)
}.

Definition set_currentFileOffset (v : Z) (l : locals) : locals :=
  mkLocals (tgtTrackNumber l) (tgtSectorNumber l) (headPosition l) v (pTT l)
    (tgtSectorIndex l) (tgtSectorOffset l) (hasError l)
    (extendedDataRecords l) (maxSectorOffset l) (weakOffset l) (seen l).
Definition set_weakOffset (v : Z) (l : locals) : locals :=
  mkLocals (tgtTrackNumber l) (tgtSectorNumber l) (headPosition l)
    (currentFileOffset l) (pTT l) (tgtSectorIndex l) (tgtSectorOffset l)
    (hasError l) (extendedDataRecords l) (maxSectorOffset l) v (seen l).
Definition set_tgtSectorIndex (v : Z) (l : locals) : locals :=
  mkLocals (tgtTrackNumber l) (tgtSectorNumber l) (headPosition l)
    (currentFileOffset l) (pTT l) v (tgtSectorOffset l)
    (hasError l) (extendedDataRecords l) (maxSectorOffset l) (weakOffset l)
    (seen l).
Definition log_occurrence (o : occurrence) (l : locals) : locals :=
  mkLocals (tgtTrackNumber l) (tgtSectorNumber l) (headPosition l)
    (currentFileOffset l) (pTT l) (tgtSectorIndex l) (tgtSectorOffset l)
    (hasError l) (extendedDataRecords l) (maxSectorOffset l) (weakOffset l)
    (seen l ++ [o]).

(** The assignments of lines 172-185, made when the occurrence [h] at index
    [i] replaces the running best ([gLastAngle] and [*status] are set
    alongside, see [scan_step]). *)
Definition take_occurrence (i tt : Z) (h : atxSectorHeader) (l : locals) : locals :=
  mkLocals (tgtTrackNumber l) (tgtSectorNumber l) (headPosition l)
    (currentFileOffset l)
    tt
    i
    (u32 (data h))
    (if status h >? 0 then true else hasError l)
    (if Z.land (status h) 64 =? 0 then extendedDataRecords l
     else u08 (extendedDataRecords l + 1))
    (if u32 (data h) >? maxSectorOffset l then u32 (data h)
     else maxSectorOffset l)
    (weakOffset l)
    (seen l ++ [mkOccurrence i h true]).

(** The test of line 171. *)
Definition replaces_best (tt pTT : Z) : bool :=
  (pTT =? 0)
  || ((tt >? 0) && (pTT <? 0))
  || ((tt >? 0) && (pTT >? 0) && (tt <? pTT))
  || ((tt <? 0) && (pTT <? 0) && (tt <? pTT)).

Section Atx.

Variable P : Platform.

(** ** The environment's operations *)

Definition faccess_offset (offset ncount : Z) : M Z :=
  fun s =>
    let '(n, b) := file_read P offset ncount (atari_sector_buffer s) in
    (Val n, emit (FileRead offset ncount) (set_buffer b s)).

(** [TCNT1 / 2], an unsigned 16-bit division. *)
Definition getCurrentHeadPosition : M Z :=
  fun s =>
    let v := u16 (TCNT1 P (clock s)) / 2 in
    (Val v, emit (HeadSample v) (tick_clock s)).

Definition rand : M Z :=
  fun s => (Val (rand_value P (seed s)), emit RandCall (tick_seed s)).

Definition _delay_ms (d : delay) : M unit := modify (emit (Delay d)).

(** ** Accesses to the arrays *)

Definition in_gTrackInfo (drive track : Z) : bool :=
  (0 <=? drive) && (drive <? 2) && (0 <=? track) && (track <? 40).

Definition gTrackInfo_offset (drive track : Z) (s : state) : Z :=
  default 0 (row ← gTrackInfo s !! Z.to_nat drive; row !! Z.to_nat track).

(** [gTrackInfo[drive][track].offset] as an rvalue. *)
Definition load_gTrackInfo (drive track : Z) : M Z :=
  if in_gTrackInfo drive track then gets (gTrackInfo_offset drive track)
  else crash (TrackInfoOutOfBounds drive track).

(** [gTrackInfo[drive][track].offset = v;]  The program checks no bound.
    With an index outside the table the C store is undefined: on the
    target it lands in the next row or in another object, and the program
    goes on.  The model records the fault and stops there, with the state
    as it was before the store; it says nothing of what comes after. *)
Definition store_gTrackInfo (drive track v : Z) : M unit :=
  if in_gTrackInfo drive track then
    modify (fun s =>
      set_gTrackInfo
        (alter (fun row => <[Z.to_nat track := v]> row) (Z.to_nat drive)
               (gTrackInfo s)) s)
  else crash (TrackInfoOutOfBounds drive track).

(** [atari_sector_buffer[i] = v;] *)
Definition store_buffer (i v : Z) : M unit :=
  if (0 <=? i) && (i <? 256) then
    modify (fun s => set_buffer (<[Z.to_nat i := v]> (atari_sector_buffer s)) s)
  else crash (SectorBufferOutOfBounds i).

(** ** loadAtxFile *)

(** The test of lines 65-70; ['A'], ['T'], ['8'], ['X'] are 65, 84, 56, 88. *)
Definition header_rejected (h : atxFileHeader) : bool :=
  negb (nth 0 (signature h) 0 =? 65)
  || negb (nth 1 (signature h) 0 =? 84)
  || negb (nth 2 (signature h) 0 =? 56)
  || negb (nth 3 (signature h) 0 =? 88)
  || negb (version h =? ATX_VERSION P)
  || negb (minVersion h =? ATX_VERSION P).

(** The [while (1)] loop of lines 81-88, from the value of [startOffset]. *)
Fixpoint track_loop (fuel : nat) (drive startOffset : Z) : M unit :=
  match fuel with
  | O => out_of_fuel
  | S fuel' =>
      n <- faccess_offset startOffset (sizeof_atxTrackHeader P) ;;
      if n =? 0 then ret tt
      else
        trackHeader <- gets (fun s => as_atxTrackHeader P (atari_sector_buffer s)) ;;
        store_gTrackInfo drive (trackNumber trackHeader) startOffset ;;;
        track_loop fuel' drive (u32 (startOffset + size trackHeader))
  end.

Definition loadAtxFile (fuel : nat) (drive : Z) : M Z :=
  call (
    faccess_offset 0 (sizeof_atxFileHeader P) ;;;
    fileHeader <- gets (fun s => as_atxFileHeader P (atari_sector_buffer s)) ;;
    if header_rejected fileHeader then return_ 0
    else
      modify (set_gSectorsPerTrack (if density fileHeader =? 1 then u08 26 else u08 18)) ;;;
      modify (set_gBytesPerSector (if density fileHeader =? 1 then u16 256 else u16 128)) ;;;
      track_loop fuel drive (u32 (startData fileHeader)) ;;;
      bps <- gets gBytesPerSector ;;
      return_ bps).

(** ** loadAtxSector *)

(** Lines 109-119: the division, the initial status and the track bound. *)
Definition target (num : Z) : M (Z * Z) :=
  spt <- gets gSectorsPerTrack ;;
  if spt =? 0 then crash DivisionByZero
  else
    let tgtTrackNumber := u08 (u16 (u16 (num - 1) / spt + 1)) in
    let tgtSectorNumber := u08 (u16 (u16 (num - 1) mod spt + 1)) in
    modify (set_out_status 247) ;;;
    if tgtTrackNumber >? 40 then return_ 0
    else ret (tgtTrackNumber, tgtSectorNumber).

(** Lines 121-138: request delay, track stepping, new head track. *)
Definition seek (tgtTrackNumber : Z) : M unit :=
  _delay_ms MS_DRIVE_REQUEST_DELAY ;;;
  cur <- gets gCurrentHeadTrack ;;
  (if negb (cur =? tgtTrackNumber) then
     let diff := s08 (tgtTrackNumber - cur) in
     let diff := if diff <? 0 then s08 (diff * -1) else diff in
     repeat_M (Z.to_nat (u16 diff)) (_delay_ms MS_TRACK_STEP) ;;;
     _delay_ms MS_HEAD_SETTLE
   else ret tt) ;;;
  modify (set_gCurrentHeadTrack tgtTrackNumber).

(** The body of the loop of lines 164-190. *)
Definition scan_step (i : Z) (l : locals) : M locals :=
  n <- faccess_offset (currentFileOffset l) (sizeof_atxSectorHeader P) ;;
  if n =? 0 then ret l
  else
    sectorHeader <- gets (fun s => as_atxSectorHeader P (atari_sector_buffer s)) ;;
    l' <- (if number sectorHeader =? tgtSectorNumber l then
             let tt := s16 (timev sectorHeader - headPosition l) in
             if replaces_best tt (pTT l) then
               modify (set_gLastAngle (u16 (timev sectorHeader))) ;;;
               modify (set_out_status (u08 (Z.lnot (status sectorHeader)))) ;;;
               ret (take_occurrence i tt sectorHeader l)
             else ret (log_occurrence (mkOccurrence i sectorHeader false) l)
           else ret l) ;;
    ret (set_currentFileOffset
           (u32 (currentFileOffset l' + sizeof_atxSectorHeader P)) l').

(** The body of the loop of lines 196-205. *)
Definition ext_step (i : Z) (l : locals) : M locals :=
  n <- faccess_offset (currentFileOffset l) (sizeof_atxExtendedSectorData P) ;;
  l' <- (if n =? 0 then ret l
         else
           extSectorData <- gets (fun s => as_atxExtendedSectorData P (atari_sector_buffer s)) ;;
           if (ext_sectorIndex extSectorData =? tgtSectorIndex l)
              && (ext_type extSectorData =? 16)
           then ret (set_weakOffset (s16 (ext_data extSectorData)) l)
           else ret l) ;;
  ret (set_currentFileOffset
         (u32 (currentFileOffset l' + sizeof_atxExtendedSectorData P)) l').

(** Lines 154-191: the sector list header and the scan of the sector
    headers; [currentFileOffset] is the offset of the track header. *)
Definition scan_sector_list
    (tgtTrackNumber tgtSectorNumber headPosition currentFileOffset : Z)
    (sectorCount headerSize : Z) : M locals :=
  let currentFileOffset := u32 (currentFileOffset + headerSize) in
  faccess_offset currentFileOffset (sizeof_atxSectorListHeader P) ;;;
  slHeader <- gets (fun s => as_atxSectorListHeader P (atari_sector_buffer s)) ;;
  let currentFileOffset :=
    u32 (currentFileOffset
         + u32 (next slHeader - u16 (sectorCount * sizeof_atxSectorHeader P))) in
  l <- for_loop (Z.to_nat sectorCount) 0 scan_step
         (mkLocals tgtTrackNumber tgtSectorNumber headPosition
            currentFileOffset 0 0 0 false 0 0 (-1) []) ;;
  g <- gets gLastAngle ;;
  modify (set_last_angle_returned g) ;;;
  ret l.

(** Lines 109-191: from the entry of the function to the end of the scan of
    the sector list. *)
Definition locate (drive num : Z) : M locals :=
  tgt <- target num ;;
  let tgtTrackNumber := fst tgt in
  let tgtSectorNumber := snd tgt in
  seek tgtTrackNumber ;;;
  headPosition <- getCurrentHeadPosition ;;
  currentFileOffset <- load_gTrackInfo drive (tgtTrackNumber - 1) ;;
  faccess_offset currentFileOffset (sizeof_atxTrackHeader P) ;;;
  trackHeader <- gets (fun s => as_atxTrackHeader P (atari_sector_buffer s)) ;;
  let sectorCount := u16 (sectorCount trackHeader) in
  if (sectorCount =? 0) || negb (trackNumber trackHeader =? tgtTrackNumber - 1)
  then return_ 0
  else
    scan_sector_list tgtTrackNumber tgtSectorNumber headPosition
      currentFileOffset sectorCount (headerSize trackHeader).

(** Lines 193-206: the extended data records. *)
Definition weak_data (drive : Z) (l : locals) : M locals :=
  if extendedDataRecords l >? 0 then
    offset <- load_gTrackInfo drive (tgtTrackNumber l - 1) ;;
    bps <- gets gBytesPerSector ;;
    for_loop (Z.to_nat (extendedDataRecords l)) 0 ext_step
      (set_currentFileOffset (u32 (offset + maxSectorOffset l + bps)) l)
  else ret l.

(** Lines 208-213: the sector size, the read of the data, the value to
    return (kept in [tgtSectorIndex], as in the source). *)
Definition read_data (drive : Z) (l : locals) : M locals :=
  bps <- gets gBytesPerSector ;;
  modify (set_out_sectorSize bps) ;;;
  n <- (if negb (tgtSectorOffset l =? 0) then
          offset <- load_gTrackInfo drive (tgtTrackNumber l - 1) ;;
          n <- faccess_offset (u32 (offset + tgtSectorOffset l)) bps ;;
          ret (u16 n)
        else ret 0) ;;
  ret (set_tgtSectorIndex (if hasError l then 0 else n) l).

(** Lines 215-220: the weak bytes. *)
Definition randomize_step (i : Z) (_ : unit) : M unit :=
  r <- rand ;;
  store_buffer i (u08 (Z.rem r 256)).

Definition randomize (l : locals) : M unit :=
  if weakOffset l >? -1 then
    bps <- gets gBytesPerSector ;;
    for_loop (Z.to_nat (bps - u16 (weakOffset l))) (u16 (weakOffset l))
      randomize_step tt
  else ret tt.

(** Lines 222-237: the second sample and the delay loop. *)
Definition rotation_delay (l : locals) : M unit :=
  t2 <- getCurrentHeadPosition ;;
  g <- gets gLastAngle ;;
  repeat_M (delay_iterations P g (headPosition l) t2) (_delay_ms MS_ONE).

(** Lines 193-240. *)
Definition deliver (drive : Z) (l : locals) : M Z :=
  l1 <- weak_data drive l ;;
  l2 <- read_data drive l1 ;;
  randomize l2 ;;;
  rotation_delay l2 ;;;
  return_ (tgtSectorIndex l2).

Definition loadAtxSector (drive num : Z) : M Z :=
  call (l <- locate drive num ;; deliver drive l).

End Atx.

(** ** A worked platform: the ATX layout on a little-endian target

    Used for the worked examples only; the theorems hold for every
    [Platform]. *)

Module Example.

Definition byte_at (b : list Z) (i : nat) : Z := default 0 (b !! i).
Definition le16 (b : list Z) (i : nat) : Z :=
  byte_at b i + 256 * byte_at b (i + 1).
Definition le32 (b : list Z) (i : nat) : Z :=
  le16 b i + 65536 * le16 b (i + 2).

Definition enc16 (v : Z) : list Z := [v mod 256; (v / 256) mod 256].
Definition enc32 (v : Z) : list Z := enc16 (v mod 65536) ++ enc16 (v / 65536).

(** Modelled from the spec: [struct atxFileHeader] of atx.h, which is not
    in the sources; the spec gives its fields (4-byte magic, version,
    minimum version, density code, offset of the first track header).  The
    layout is the one of the ATX format: signature[4], version, minVersion
    at 0, 4, 6; density at 18; startData at 28; 48 bytes. *)
Definition decode_file_header (b : list Z) : atxFileHeader :=
  mkFileHeader (take 4 b) (le16 b 4) (le16 b 6) (byte_at b 18) (le32 b 28).
(** Modelled from the spec: [struct atxTrackHeader] of atx.h (total size,
    own track number, sector count, header size): size at 0, trackNumber at
    8, sectorCount at 10, headerSize at 20; 32 bytes. *)
Definition decode_track_header (b : list Z) : atxTrackHeader :=
  mkTrackHeader (le32 b 0) (byte_at b 8) (le16 b 10) (le32 b 20).
(** Modelled from the spec: [struct atxSectorListHeader] of atx.h: next at
    0; 8 bytes. *)
Definition decode_sector_list_header (b : list Z) : atxSectorListHeader :=
  mkSectorListHeader (le32 b 0).
(** Modelled from the spec: [struct atxSectorHeader] of atx.h (sector
    number, status bits, angular position, data offset): number, status,
    timev, data at 0, 1, 2, 4; 8 bytes. *)
Definition decode_sector_header (b : list Z) : atxSectorHeader :=
  mkSectorHeader (byte_at b 0) (byte_at b 1) (le16 b 2) (le32 b 4).
(** Modelled from the spec: [struct atxExtendedSectorData] of atx.h
    (record type, index of the sector header, payload): type, sectorIndex,
    data at 4, 5, 6; 8 bytes. *)
Definition decode_extended (b : list Z) : atxExtendedSectorData :=
  mkExtendedSectorData (byte_at b 4) (byte_at b 5) (le16 b 6).

(** Modelled from the spec: [faccess_offset] of fat.c (the Byte-Range
    Reader), which is not in the sources: given an absolute offset and a
    length it loads that many bytes of the image into the shared buffer and
    reports success; beyond the end of the file it fails, which is the
    expected signal and leaves the buffer as it was. *)
Definition read_image (image : list Z) (offset ncount : Z) (buffer : list Z)
  : Z * list Z :=
  if (0 <=? offset) && (0 <? ncount)
     && (offset + ncount <=? Z.of_nat (length image))
  then (ncount,
        take (Z.to_nat ncount) (drop (Z.to_nat offset) image)
        ++ drop (Z.to_nat ncount) buffer)
  else (0, buffer).

(** The delay loop of lines 226-237 in exact arithmetic: the least i >= 0
    with i >= rotationDelay + 11 - (t2 - headPosition) * 0.007999897601.
    An idealisation for the worked platform only: the program computes in
    [double], whose rounding can add an iteration (when the two products
    cancel, 11 here against 12 there).  The properties are stated over the
    [delay_iterations] of any platform, and none depends on the count. *)
Definition exact_delay_iterations (lastAngle headPosition t2 : Z) : nat :=
  let rotation :=
    if lastAngle >? headPosition then lastAngle - headPosition
    else AU_FULL_ROTATION - headPosition + lastAngle in
  let num := (rotation - (t2 - headPosition)) * 7999897601 + 11 * 10 ^ 12 in
  if num <=? 0 then O else Z.to_nat ((num + 10 ^ 12 - 1) / 10 ^ 12).

(** Modelled from the spec: [ATX_VERSION] of atx.h, the single supported
    version, taken to be 1, with the sizes of the structures above; the
    timer reads the values of [tcnt1] in turn, [rand] counts in sevens. *)
Definition platform (image : list Z) (tcnt1 : list Z) : Platform :=
  mkPlatform 1 48 32 8 8 8
    decode_file_header decode_track_header decode_sector_list_header
    decode_sector_header decode_extended
    (read_image image)
    (fun k => default 0 (tcnt1 !! k))
    (fun k => 7 * Z.of_nat k + 300)
    exact_delay_iterations.

(** *** Building images *)

Definition file_header (density startData : Z) : list Z :=
  [65; 84; 56; 88] ++ enc16 1 ++ enc16 1 ++ replicate 10 0
  ++ [density; 0] ++ replicate 8 0 ++ enc32 startData ++ replicate 16 0.

Definition track_header (size trackNumber sectorCount : Z) : list Z :=
  enc32 size ++ replicate 4 0 ++ [trackNumber; 0] ++ enc16 sectorCount
  ++ replicate 8 0 ++ enc32 32 ++ replicate 8 0.

Definition sector_list_header (sectorCount : Z) : list Z :=
  enc32 (8 + 8 * sectorCount) ++ replicate 4 0.

Definition sector_header (number status timev data : Z) : list Z :=
  [number; status] ++ enc16 timev ++ enc32 data.

Definition extended_record (type sectorIndex data : Z) : list Z :=
  enc32 8 ++ [type; sectorIndex] ++ enc16 data.

(** A single-density image of two tracks.  Track 0 lists sector 1 twice
    (angles 20000, with the extended-data bit, and 100) and sector 2 once;
    a weak-data record for list index 2 starts at byte 100.  Track 1 has an
    empty sector list. *)
Definition demo_image : list Z :=
  file_header 0 48
  ++ track_header 456 0 3
  ++ sector_list_header 3
  ++ sector_header 1 64 20000 64
  ++ sector_header 2 0 5000 192
  ++ sector_header 1 0 100 320
  ++ replicate 128 17 ++ replicate 128 34 ++ replicate 128 51
  ++ extended_record 16 2 100
  ++ track_header 32 1 0.

(** TCNT1 reads 100, then 300: the head is at 50, then at 150. *)
Definition demo : Platform := platform demo_image [100; 300; 500; 700].

Definition power_on : state := initial_state (replicate 256 0) 0 0.

(** The state after [loadAtxFile(0)] on the demo image. *)
Definition loaded : state := snd (loadAtxFile demo 8 0 power_on).

(** An image whose only track declares track number 40. *)
Definition track40_image : list Z :=
  file_header 0 48 ++ track_header 32 40 0.

End Example.

(** ** Notions used in the statements *)

Section Notions.

Variable P : Platform.

(** The file header as line 64 finds it, after the read of line 61. *)
Definition header_read (st : state) : atxFileHeader :=
  as_atxFileHeader P
    (snd (file_read P 0 (sizeof_atxFileHeader P) (atari_sector_buffer st))).

(** The magic is 'AT8X' and both version fields are the supported one. *)
Definition supported_header (h : atxFileHeader) : Prop :=
  nth 0 (signature h) 0 = 65 /\ nth 1 (signature h) 0 = 84 /\
  nth 2 (signature h) 0 = 56 /\ nth 3 (signature h) 0 = 88 /\
  version h = ATX_VERSION P /\ minVersion h = ATX_VERSION P.

(** The track headers met from [startOffset] on, as (track number, offset),
    when the read that ends the list comes within [fuel] reads. *)
Fixpoint walk (fuel : nat) (startOffset : Z) (buffer : list Z)
  : option (list (Z * Z)) :=
  match fuel with
  | O => None
  | S fuel' =>
      let '(n, b) := file_read P startOffset (sizeof_atxTrackHeader P) buffer in
      if n =? 0 then Some []
      else
        let th := as_atxTrackHeader P b in
        option_map (cons (trackNumber th, startOffset))
          (walk fuel' (u32 (startOffset + size th)) b)
  end.

End Notions.

(** The angular distance the head travels forward from [head] to reach
    [angle]: [angle - head] when positive, a wrapped occurrence otherwise. *)
Definition forward_distance (angle head : Z) : Z :=
  if angle - head >? 0 then angle - head
  else angle - head + AU_FULL_ROTATION.

(** The occurrence chosen by the scan: the last one that replaced the
    running best. *)
Fixpoint final_choice (log : list occurrence) : option occurrence :=
  match log with
  | [] => None
  | o :: log' =>
      match final_choice log' with
      | Some o' => Some o'
      | None => if occ_taken o then Some o else None
      end
  end.

(** The delays of the seek (lines 125-135) from head track [cur] to [tgt]. *)
Definition seek_events (cur tgt : Z) : list event :=
  if negb (cur =? tgt) then
    let diff := s08 (tgt - cur) in
    let diff := if diff <? 0 then s08 (diff * -1) else diff in
    replicate (Z.to_nat (u16 diff)) (Delay MS_TRACK_STEP)
    ++ [Delay MS_HEAD_SETTLE]
  else [].

(** The track and the sector within the track of lines 110-111. *)
Definition track_of (spt num : Z) : Z := u08 (u16 (u16 (num - 1) / spt + 1)).
Definition sector_of (spt num : Z) : Z := u08 (u16 (u16 (num - 1) mod spt + 1)).

Definition emit_all (evs : list event) (s : state) : state :=
  fold_left (fun s e => emit e s) evs s.

Section Prologue.

Variable P : Platform.

(** The sample of line 141. *)
Definition first_sample (s : state) : Z := u16 (TCNT1 P (clock s)) / 2.

(** The state after line 141, for a call entered in [s]. *)
Definition after_sample (num : Z) (s : state) : state :=
  let ttn := track_of (gSectorsPerTrack s) num in
  emit (HeadSample (first_sample s))
    (tick_clock
       (set_gCurrentHeadTrack ttn
          (emit_all
             (Delay MS_DRIVE_REQUEST_DELAY
              :: seek_events (gCurrentHeadTrack s) ttn)
             (set_out_status 247 s)))).

(** The state after the read of the track header, line 145. *)
Definition at_track_read (drive num : Z) (s : state) : state :=
  let ttn := track_of (gSectorsPerTrack s) num in
  let offset := gTrackInfo_offset drive (ttn - 1) s in
  emit (FileRead offset (sizeof_atxTrackHeader P))
    (set_buffer
       (snd (file_read P offset (sizeof_atxTrackHeader P)
               (atari_sector_buffer s)))
       (after_sample num s)).

(** The track header as line 146 finds it. *)
Definition track_header_read (drive num : Z) (s : state) : atxTrackHeader :=
  as_atxTrackHeader P (atari_sector_buffer (at_track_read drive num s)).

(** The test of line 150. *)
Definition track_rejected (drive num : Z) (s : state) : bool :=
  (u16 (sectorCount (track_header_read drive num s)) =? 0)
  || negb (trackNumber (track_header_read drive num s)
           =? track_of (gSectorsPerTrack s) num - 1).

(** The headers with number [tsn] among the [n] sector headers that the
    scan reads from [offset] on, with their list indices [i], [i+1], ...: a
    header whose read fails is passed over and the offset stays (line 188
    is inside the test of line 165). *)
Fixpoint listed_from (tsn : Z) (n : nat) (i offset : Z) (buffer : list Z)
  : list (Z * atxSectorHeader) :=
  match n with
  | O => []
  | S n' =>
      let '(r, b) := file_read P offset (sizeof_atxSectorHeader P) buffer in
      if r =? 0 then listed_from tsn n' (i + 1) offset b
      else
        let h := as_atxSectorHeader P b in
        (if number h =? tsn then [(i, h)] else [])
        ++ listed_from tsn n' (i + 1)
             (u32 (offset + sizeof_atxSectorHeader P)) b
  end.

(** The start of the sector headers (line 160) and the buffer there, for
    a track header at [offset] with [cnt] sectors and header size [hs]. *)
Definition sector_list_start (offset cnt hs : Z) (buffer : list Z)
  : Z * list Z :=
  let off1 := u32 (offset + hs) in
  let b1 := snd (file_read P off1 (sizeof_atxSectorListHeader P) buffer) in
  (u32 (off1
        + u32 (next (as_atxSectorListHeader P b1)
               - u16 (cnt * sizeof_atxSectorHeader P))),
   b1).

(** The occurrences of the requested sector in the sector list of its
    track, as (list index, header), for a call entered in [s]. *)
Definition listed_occurrences (drive num : Z) (s : state)
  : list (Z * atxSectorHeader) :=
  let spt := gSectorsPerTrack s in
  let th := track_header_read drive num s in
  let cnt := u16 (sectorCount th) in
  let start :=
    sector_list_start
      (gTrackInfo_offset drive (track_of spt num - 1) s) cnt (headerSize th)
      (atari_sector_buffer (at_track_read drive num s)) in
  listed_from (sector_of spt num) (Z.to_nat cnt) 0 (fst start) (snd start).

End Prologue.

Definition occ_entry (o : occurrence) : Z * atxSectorHeader :=
  (occ_index o, occ_header o).

(** What the loop of lines 164-190 keeps: [s0] is the state at its entry,
    [i] the loop index. *)
Definition scan_inv (hp tsn ttn : Z) (s0 : state) (i : Z) (l : locals)
    (s : state) : Prop :=
  0 <= i /\
  (headPosition l = hp /\ tgtSectorNumber l = tsn /\ tgtTrackNumber l = ttn
   /\ weakOffset l = -1) /\
  (gBytesPerSector s = gBytesPerSector s0
   /\ gSectorsPerTrack s = gSectorsPerTrack s0
   /\ gTrackInfo s = gTrackInfo s0
   /\ out_sectorSize s = out_sectorSize s0
   /\ clock s = clock s0 /\ seed s = seed s0
   /\ gCurrentHeadTrack s = gCurrentHeadTrack s0) /\
  match final_choice (seen l) with
  | None =>
      seen l = [] /\ pTT l = 0 /\ tgtSectorOffset l = 0
      /\ extendedDataRecords l = 0
      /\ out_status s = out_status s0 /\ gLastAngle s = gLastAngle s0
  | Some o =>
      occ_index o = tgtSectorIndex l
      /\ pTT l = s16 (timev (occ_header o) - hp)
      /\ gLastAngle s = u16 (timev (occ_header o))
      /\ out_status s = u08 (Z.lnot (status (occ_header o)))
      /\ tgtSectorOffset l = u32 (data (occ_header o))
      /\ In o (seen l)
  end /\
  hasError l
  = existsb (fun o => occ_taken o && (status (occ_header o) >? 0)) (seen l) /\
  (forall o, In o (seen l) ->
     number (occ_header o) = tsn /\ 0 <= occ_index o < i) /\
  ((forall o, In o (seen l) ->
      0 <= timev (occ_header o) < AU_FULL_ROTATION) ->
   0 <= hp < AU_FULL_ROTATION ->
   forall c o,
     final_choice (seen l) = Some c -> In o (seen l) ->
     forward_distance (timev (occ_header c)) hp
     <= forward_distance (timev (occ_header o)) hp).

(** Everything but the sector buffer and the trace is the same. *)
Definition same_globals (s s' : state) : Prop :=
  last_angle_returned s' = last_angle_returned s
  /\ gBytesPerSector s' = gBytesPerSector s
  /\ gSectorsPerTrack s' = gSectorsPerTrack s
  /\ gTrackInfo s' = gTrackInfo s
  /\ gLastAngle s' = gLastAngle s
  /\ gCurrentHeadTrack s' = gCurrentHeadTrack s
  /\ out_sectorSize s' = out_sectorSize s
  /\ out_status s' = out_status s
  /\ clock s' = clock s
  /\ seed s' = seed s.

(** What the loop of lines 196-205 keeps: of the locals only
    [currentFileOffset] and [weakOffset] move, and [weakOffset] is an
    [int]. *)
Definition ext_inv (l0 : locals) (s0 : state) (i : Z) (l : locals)
    (s : state) : Prop :=
  (tgtTrackNumber l = tgtTrackNumber l0
   /\ tgtSectorNumber l = tgtSectorNumber l0
   /\ headPosition l = headPosition l0
   /\ pTT l = pTT l0
   /\ tgtSectorIndex l = tgtSectorIndex l0
   /\ tgtSectorOffset l = tgtSectorOffset l0
   /\ hasError l = hasError l0
   /\ extendedDataRecords l = extendedDataRecords l0
   /\ maxSectorOffset l = maxSectorOffset l0
   /\ seen l = seen l0)
  /\ -32768 <= weakOffset l < 32768
  /\ same_globals s0 s.

(** What the loop of lines 217-219 keeps, from weak offset [K] and state
    [s0]: the bytes below [K] stay, the bytes from [K] to the loop index
    are the values of [rand() % 256] in the order of the calls. *)
Definition weak_inv (P : Platform) (K : Z) (s0 : state) (i : Z) (_ : unit)
    (s : state) : Prop :=
  K <= i
  /\ last_angle_returned s = last_angle_returned s0
  /\ gBytesPerSector s = gBytesPerSector s0
  /\ gSectorsPerTrack s = gSectorsPerTrack s0
  /\ gTrackInfo s = gTrackInfo s0
  /\ gLastAngle s = gLastAngle s0
  /\ gCurrentHeadTrack s = gCurrentHeadTrack s0
  /\ out_sectorSize s = out_sectorSize s0
  /\ out_status s = out_status s0
  /\ clock s = clock s0
  /\ seed s = (seed s0 + Z.to_nat (i - K))%nat
  /\ trace s = trace s0 ++ replicate (Z.to_nat (i - K)) RandCall
  /\ length (atari_sector_buffer s) = length (atari_sector_buffer s0)
  /\ (forall j, 0 <= j < K ->
        atari_sector_buffer s !! Z.to_nat j
        = atari_sector_buffer s0 !! Z.to_nat j)
  /\ (length (atari_sector_buffer s0) = 256%nat ->
      forall j, K <= j < i ->
        atari_sector_buffer s !! Z.to_nat j
        = Some (u08 (Z.rem (rand_value P (seed s0 + Z.to_nat (j - K))) 256))).

(** The number of samples of the head position in a trace. *)
Fixpoint head_samples (t : list event) : nat :=
  match t with
  | [] => O
  | HeadSample _ :: t' => S (head_samples t')
  | _ :: t' => head_samples t'
  end.

(** ** The demo image, sector 1 *)

Module Run.
Import Example.

Definition no_locals : locals := mkLocals 0 0 0 0 0 0 0 false 0 0 0 [].

Definition val_or {A : Type} (d : A) (r : res A) : A :=
  match r with Val a => a | _ => d end.

(** Sector 1 of drive 0 after the load: the locals and the state at the
    end of the scan, after the extended records, after the read of the
    data. *)
Definition l_scan : locals :=
  Eval vm_compute in val_or no_locals (fst (locate demo 0 1 loaded)).
Definition st_scan : state := snd (locate demo 0 1 loaded).
Definition l_weak : locals :=
  Eval vm_compute in val_or no_locals (fst (weak_data demo 0 l_scan st_scan)).
Definition st_weak : state := snd (weak_data demo 0 l_scan st_scan).
Definition l_read : locals :=
  Eval vm_compute in val_or no_locals (fst (read_data demo 0 l_weak st_weak)).
Definition st_read : state := snd (read_data demo 0 l_weak st_weak).

(** The occurrence at list index 0: angle 20000, status 0x40. *)
Definition first_occurrence : occurrence :=
  mkOccurrence 0 (mkSectorHeader 1 64 20000 64) true.

End Run.

(** ** Notions for the further properties *)

(** The last offset met for track number [tn] in a list of (track number,
    offset). *)
Fixpoint last_offset (tn : Z) (tracks : list (Z * Z)) : option Z :=
  match tracks with
  | [] => None
  | (t, o) :: rest =>
      match last_offset tn rest with
      | Some o' => Some o'
      | None => if t =? tn then Some o else None
      end
  end.

(** The track table has its 2 rows of 40 entries. *)
Definition table_ok (t : list (list Z)) : bool :=
  (length t =? 2)%nat && forallb (fun row => (length row =? 40)%nat) t.

(** A statement never changes the value of [f]. *)
Definition keeps {A B : Type} (f : state -> B) (m : M A) : Prop :=
  forall s, f (snd (m s)) = f s.

(** What lines 193-240 leave alone: everything but the sector buffer, the
    sector size, the two oracles and the trace. *)
Definition beyond_deliver (s : state)
  : Z * Z * Z * list (list Z) * Z * Z * Z :=
  (last_angle_returned s, gBytesPerSector s, gSectorsPerTrack s,
   gTrackInfo s, gLastAngle s, gCurrentHeadTrack s, out_status s).

(** What loadAtxFile leaves alone besides the rows of the other drives. *)
Definition beyond_loader (s : state) : Z * Z * Z * Z * Z * nat * nat :=
  (last_angle_returned s, gLastAngle s, gCurrentHeadTrack s,
   out_sectorSize s, out_status s, clock s, seed s).

(** The geometry and the track table. *)
Definition tables (s : state) : Z * Z * list (list Z) :=
  (gBytesPerSector s, gSectorsPerTrack s, gTrackInfo s).

(** What the scan keeps about the count of extended records: it is an
    8-bit count, and nonzero only if an occurrence with the extended-data
    bit replaced the running best. *)
Definition ext_count_inv (i : Z) (l : locals) (s : state) : Prop :=
  0 <= extendedDataRecords l < 256
  /\ (extendedDataRecords l <> 0 ->
      existsb (fun o => occ_taken o
                        && negb (Z.land (status (occ_header o)) 64 =? 0))
        (seen l) = true).

(** The reads of [n] extended records from [base] on. *)
Definition ext_reads (base sz : Z) (n : nat) : list event :=
  map (fun k => FileRead (u32 (base + Z.of_nat k * sz)) sz) (seq 0 n).

(** What the loop of lines 196-205 keeps about its reads: one read per
    record, each [sz] bytes further, whether the reads succeed or not. *)
Definition ext_trace_inv (base sz : Z) (s0 : state) (i : Z) (l : locals)
    (s : state) : Prop :=
  0 <= i
  /\ currentFileOffset l = u32 (base + i * sz)
  /\ trace s = trace s0 ++ ext_reads base sz (Z.to_nat i).

(** The state after lines 222-237 entered in [s]: the second sample, then
    the iterations of the delay loop. *)
Definition after_delay (P : Platform) (l : locals) (s : state) : state :=
  emit_all
    (replicate
       (delay_iterations P (gLastAngle s) (headPosition l)
          (u16 (TCNT1 P (clock s)) / 2))
       (Delay MS_ONE))
    (emit (HeadSample (u16 (TCNT1 P (clock s)) / 2)) (tick_clock s)).

(** The geometry is that of no image, of a single- or double-density image
    or of an enhanced-density image. *)
Definition geometry_ok (s : state) : Prop :=
  (gSectorsPerTrack s = 0 /\ gBytesPerSector s = 0)
  \/ (gSectorsPerTrack s = 18 /\ gBytesPerSector s = 128)
  \/ (gSectorsPerTrack s = 26 /\ gBytesPerSector s = 256).

(** ** Further worked inputs *)

Module Inputs.
Import Example.

(** An image whose only track header declares size 0. *)
Definition zero_size_image : list Z :=
  file_header 0 48 ++ track_header 0 0 0.

(** Sector 3 of the demo image is not listed on track 0; sector 2 is
    listed once, clean. *)
Definition l_none : locals :=
  Eval vm_compute in
    match fst (locate demo 0 3 loaded) with
    | Val l => l
    | _ => mkLocals 0 0 0 0 0 0 0 false 0 0 0 []
    end.
Definition l_clean : locals :=
  Eval vm_compute in
    match fst (locate demo 0 2 loaded) with
    | Val l => l
    | _ => mkLocals 0 0 0 0 0 0 0 false 0 0 0 []
    end.

(** Locals whose file offset lies beyond the end of the demo image. *)
Definition l_beyond : locals :=
  mkLocals 1 1 50 1000 0 0 0 false 0 0 (-1) [].

End Inputs.

(** The largest data offset (as a u32) among the occurrences that replaced
    the running best. *)
Definition taken_max (log : list occurrence) : Z :=
  fold_left
    (fun m o => if occ_taken o then Z.max m (u32 (data (occ_header o))) else m)
    log 0.

(** What the scan keeps about [maxSectorOffset]. *)
Definition max_offset_inv (i : Z) (l : locals) (s : state) : Prop :=
  maxSectorOffset l = taken_max (seen l)
  /\ 0 <= tgtSectorOffset l <= maxSectorOffset l.

(** The run met undefined behaviour.  For loadAtxFile this is the store of
    line 86 with an index outside the track table: the C program goes on
    from there with memory this model does not describe, so what is stated
    about the state of a run is stated for the runs that did not meet
    it. *)
Definition faulted {A : Type} (r : res A) : bool :=
  match r with
  | Fault _ => true
  | _ => false
  end.

(** The loop of lines 81-88 goes on for ever: however many iterations are
    allowed, loadAtxFile has not come back. *)
Definition never_returns (P : Platform) (drive : Z) (st : state) : Prop :=
  forall fuel, fst (loadAtxFile P fuel drive st) = OutOfFuel.

(** * Properties *)

Ltac unfold_M :=
  unfold bind, ret, gets, modify, return_, crash, out_of_fuel, call,
    faccess_offset, getCurrentHeadPosition, rand, _delay_ms,
    load_gTrackInfo, store_gTrackInfo, store_buffer in *.

(** ** The image loader *)

Section Loader.

Variable P : Platform.

Lemma header_rejected_false (h : atxFileHeader) :
  header_rejected P h = false <-> supported_header P h.
Proof.
  unfold header_rejected, supported_header.
  rewrite !orb_false_iff, !negb_false_iff, !Z.eqb_eq. tauto.
Qed.

Lemma header_rejected_true (h : atxFileHeader) :
  header_rejected P h = true <-> ~ supported_header P h.
Proof.
  rewrite <- header_rejected_false.
  destruct (header_rejected P h); split; intros; congruence.
Qed.

(** The loop over the track headers leaves the geometry alone as far as
    the model follows it (up to a store outside the table, where it
    stops), and holds no [return]. *)
Lemma track_loop_geometry (fuel : nat) :
  forall drive startOffset s,
    gSectorsPerTrack (snd (track_loop P fuel drive startOffset s))
      = gSectorsPerTrack s /\
    gBytesPerSector (snd (track_loop P fuel drive startOffset s))
      = gBytesPerSector s /\
    (forall v, fst (track_loop P fuel drive startOffset s) <> Ret v).
Proof.
  induction fuel as [|fuel IH]; intros drive off s; simpl.
  - repeat split; try reflexivity. discriminate.
  - unfold_M.
    destruct (file_read P off (sizeof_atxTrackHeader P) (atari_sector_buffer s))
      as [n b] eqn:Hr.
    destruct (n =? 0); simpl; [repeat split; try reflexivity; discriminate|].
    destruct (in_gTrackInfo drive _); simpl;
      [|repeat split; try reflexivity; discriminate].
    match goal with
    | |- context [track_loop P fuel drive ?o ?s'] =>
        destruct (IH drive o s') as (H1 & H2 & H3); rewrite H1, H2
    end.
    repeat split; try reflexivity. assumption.
Qed.

(** A list of tracks that ends within the fuel and stays inside the table
    lets the loop complete. *)
Lemma track_loop_completes (fuel : nat) :
  forall drive startOffset s tracks,
    walk P fuel startOffset (atari_sector_buffer s) = Some tracks ->
    forallb (fun t => in_gTrackInfo drive (fst t)) tracks = true ->
    fst (track_loop P fuel drive startOffset s) = Val tt.
Proof.
  induction fuel as [|fuel IH]; intros drive off s tracks Hw Hb; simpl in *.
  - discriminate.
  - unfold_M.
    destruct (file_read P off (sizeof_atxTrackHeader P) (atari_sector_buffer s))
      as [n b] eqn:Hr.
    destruct (n =? 0); simpl; [reflexivity|].
    destruct (walk P fuel _ b) as [rest|] eqn:Hrest; simpl in Hw; [|discriminate].
    injection Hw as <-. simpl in Hb. apply andb_true_iff in Hb as [Hin Hb].
    rewrite Hin. simpl.
    apply (IH drive _ _ rest); simpl; assumption.
Qed.

(** A track header whose number is outside the table stops the loop at the
    store of line 86. *)
Lemma track_loop_out_of_bounds (fuel : nat) (drive startOffset : Z) (s : state) :
  let r := file_read P startOffset (sizeof_atxTrackHeader P)
             (atari_sector_buffer s) in
  fst r <> 0 ->
  in_gTrackInfo drive (trackNumber (as_atxTrackHeader P (snd r))) = false ->
  fst (track_loop P (S fuel) drive startOffset s)
  = Fault (TrackInfoOutOfBounds drive
             (trackNumber (as_atxTrackHeader P (snd r)))).
Proof.
  intros r Hn Hout. subst r. simpl. unfold_M.
  destruct (file_read P startOffset (sizeof_atxTrackHeader P)
              (atari_sector_buffer s)) as [n b].
  simpl in *. destruct (Z.eqb_spec n 0); [contradiction|].
  simpl. rewrite Hout. reflexivity.
Qed.

(** C8.  When the header found after the read of line 61 does not carry
    the magic 'AT8X' or one of its two version fields is not the supported
    version, loadAtxFile returns 0 and the track table of the drive (the
    whole table, in fact), the number of sectors per track and the number
    of bytes per sector are what they were. *)
Theorem loadAtxFile_rejects_unsupported (fuel : nat) (drive : Z) (st : state) :
  ~ supported_header P (header_read P st) ->
  fst (loadAtxFile P fuel drive st) = Val 0 /\
  gTrackInfo (snd (loadAtxFile P fuel drive st)) = gTrackInfo st /\
  gSectorsPerTrack (snd (loadAtxFile P fuel drive st)) = gSectorsPerTrack st /\
  gBytesPerSector (snd (loadAtxFile P fuel drive st)) = gBytesPerSector st.
Proof.
  intros H. apply header_rejected_true in H.
  unfold loadAtxFile, header_read in *. unfold_M.
  destruct (file_read P 0 (sizeof_atxFileHeader P) (atari_sector_buffer st))
    as [n b]; simpl in *.
  rewrite H. simpl. repeat split; reflexivity.
Qed.

(** C9, as the code has it.  A header that passes the validation is not
    enough for loadAtxFile to return: the loop of lines 81-88 ends only at
    a track-header read that fails.  When the header passes the validation
    and the list of track headers ends (a read fails within [fuel]
    iterations) with every track number met inside the track table of the
    drive, loadAtxFile returns the number of bytes per sector, and it has
    left 26 sectors per track and 256 bytes per sector if the density code
    is 1, and 18 and 128 for every other code. *)
Theorem loadAtxFile_geometry_when_tracks_end (fuel : nat) (drive : Z)
    (st : state) (tracks : list (Z * Z)) :
  supported_header P (header_read P st) ->
  walk P fuel (u32 (startData (header_read P st)))
    (snd (file_read P 0 (sizeof_atxFileHeader P) (atari_sector_buffer st)))
    = Some tracks ->
  forallb (fun t => in_gTrackInfo drive (fst t)) tracks = true ->
  let r := loadAtxFile P fuel drive st in
  let h := header_read P st in
  fst r = Val (if density h =? 1 then 256 else 128) /\
  gSectorsPerTrack (snd r) = (if density h =? 1 then 26 else 18) /\
  gBytesPerSector (snd r) = (if density h =? 1 then 256 else 128).
Proof.
  intros H Hw Hb. apply header_rejected_false in H.
  unfold loadAtxFile, header_read in *. unfold_M.
  destruct (file_read P 0 (sizeof_atxFileHeader P) (atari_sector_buffer st))
    as [n b]; simpl in *.
  rewrite H.
  set (h := as_atxFileHeader P b) in *.
  set (s1 := set_gBytesPerSector _ (set_gSectorsPerTrack _ _)).
  destruct (track_loop_geometry fuel drive (u32 (startData h)) s1)
    as (G1 & G2 & _).
  assert (Hspt : gSectorsPerTrack s1 = if density h =? 1 then 26 else 18)
    by (subst s1; simpl; destruct (density h =? 1); reflexivity).
  assert (Hbps : gBytesPerSector s1 = if density h =? 1 then 256 else 128)
    by (subst s1; simpl; destruct (density h =? 1); reflexivity).
  pose proof (track_loop_completes fuel drive (u32 (startData h)) s1 tracks
                Hw Hb) as Hcomp.
  destruct (track_loop P fuel drive (u32 (startData h)) s1) as [[[]| v | f |] s2];
    simpl in *; try discriminate.
  rewrite G1, G2, Hspt, Hbps. repeat split; reflexivity.
Qed.

End Loader.

(** ** Machine arithmetic *)

Lemma s16_small (x : Z) : -32768 <= x < 32768 -> s16 x = x.
Proof.
  intros H. unfold s16.
  destruct (Z_lt_le_dec x 0) as [Hneg|Hpos].
  - replace (x mod 65536) with (x + 65536).
    + destruct (Z.ltb_spec (x + 65536) 32768); lia.
    + apply Z.mod_unique with (q := -1); lia.
  - rewrite Z.mod_small by lia.
    destruct (Z.ltb_spec x 32768); lia.
Qed.

Lemma s16_range (x : Z) : -32768 <= s16 x < 32768.
Proof.
  unfold s16. pose proof (Z.mod_pos_bound x 65536 ltac:(lia)).
  destruct (Z.ltb_spec (x mod 65536) 32768); lia.
Qed.

Lemma u16_small (x : Z) : 0 <= x < 65536 -> u16 x = x.
Proof. intros H. unfold u16. apply Z.mod_small. assumption. Qed.

(** ** Loops and traces *)

Lemma emit_all_app (a b : list event) (s : state) :
  emit_all (a ++ b) s = emit_all b (emit_all a s).
Proof. unfold emit_all. apply fold_left_app. Qed.

Lemma emit_all_fields (evs : list event) :
  forall s,
    atari_sector_buffer (emit_all evs s) = atari_sector_buffer s /\
    last_angle_returned (emit_all evs s) = last_angle_returned s /\
    gBytesPerSector (emit_all evs s) = gBytesPerSector s /\
    gSectorsPerTrack (emit_all evs s) = gSectorsPerTrack s /\
    gTrackInfo (emit_all evs s) = gTrackInfo s /\
    gLastAngle (emit_all evs s) = gLastAngle s /\
    gCurrentHeadTrack (emit_all evs s) = gCurrentHeadTrack s /\
    out_sectorSize (emit_all evs s) = out_sectorSize s /\
    out_status (emit_all evs s) = out_status s /\
    clock (emit_all evs s) = clock s /\
    seed (emit_all evs s) = seed s /\
    trace (emit_all evs s) = trace s ++ evs.
Proof.
  induction evs as [|e evs IH]; intros s.
  - simpl. rewrite app_nil_r. repeat split; reflexivity.
  - change (emit_all (e :: evs) s) with (emit_all evs (emit e s)).
    destruct (IH (emit e s)) as (H1&H2&H3&H4&H5&H6&H7&H8&H9&H10&H11&H12).
    rewrite H1, H2, H3, H4, H5, H6, H7, H8, H9, H10, H11, H12. simpl.
    rewrite <- app_assoc. repeat split; reflexivity.
Qed.

Lemma repeat_delay_run (d : delay) (n : nat) :
  forall s,
    repeat_M n (_delay_ms d) s = (Val tt, emit_all (replicate n (Delay d)) s).
Proof.
  induction n as [|n IH]; intros s; simpl.
  - reflexivity.
  - unfold bind, _delay_ms, modify. rewrite IH. reflexivity.
Qed.

(** A loop whose body completes and keeps an invariant, below a bound. *)
Lemma for_loop_invariant {A : Type} (I : Z -> A -> state -> Prop)
    (body : Z -> A -> M A) (hi : Z) :
  (forall i a s, i < hi -> I i a s ->
     exists a' s', body i a s = (Val a', s') /\ I (i + 1) a' s') ->
  forall n i a s,
    i + Z.of_nat n <= hi -> I i a s ->
    exists a' s',
      for_loop n i body a s = (Val a', s') /\ I (i + Z.of_nat n) a' s'.
Proof.
  intros Hbody. induction n as [|n IH]; intros i a s Hle HI.
  - exists a, s. simpl. rewrite Z.add_0_r. split; [reflexivity|assumption].
  - destruct (Hbody i a s ltac:(lia) HI) as (a1 & s1 & Hb & HI1).
    destruct (IH (i + 1) a1 s1 ltac:(lia) HI1) as (a2 & s2 & Hl & HI2).
    exists a2, s2. simpl. unfold bind. rewrite Hb. split; [assumption|].
    replace (i + Z.of_nat (S n)) with (i + 1 + Z.of_nat n) by lia. assumption.
Qed.

(** ** The choice among the occurrences of a sector *)

Lemma final_choice_app (log : list occurrence) (o : occurrence) :
  final_choice (log ++ [o])
  = if occ_taken o then Some o else final_choice log.
Proof.
  induction log as [|a log IH]; simpl.
  - reflexivity.
  - rewrite IH. destruct (occ_taken o); reflexivity.
Qed.

Ltac cases_Zb :=
  repeat match goal with
    | |- context [?x =? ?y] => destruct (Z.eqb_spec x y)
    | |- context [?x <? ?y] => destruct (Z.ltb_spec x y)
    | H : context [?x =? ?y] |- _ => destruct (Z.eqb_spec x y)
    | H : context [?x <? ?y] |- _ => destruct (Z.ltb_spec x y)
    end.

(** The test of line 171 compares forward distances, for angles within one
    rotation. *)
Lemma replaces_best_forward (a c hp : Z) :
  0 <= a < AU_FULL_ROTATION -> 0 <= c < AU_FULL_ROTATION ->
  0 <= hp < AU_FULL_ROTATION ->
  (replaces_best (a - hp) (c - hp) = true ->
   forward_distance a hp <= forward_distance c hp) /\
  (replaces_best (a - hp) (c - hp) = false ->
   forward_distance c hp <= forward_distance a hp).
Proof.
  unfold replaces_best, forward_distance, AU_FULL_ROTATION.
  rewrite !Z.gtb_ltb. intros Ha Hc Hh.
  split; intros H; cases_Zb; simpl in H; try discriminate; lia.
Qed.

Lemma replaces_best_first (tt : Z) : replaces_best tt 0 = true.
Proof. reflexivity. Qed.

(** ** The scan of the sector list *)

Section Scan.

Variable P : Platform.

Lemma angle_difference (a hp : Z) :
  0 <= a < AU_FULL_ROTATION -> 0 <= hp < AU_FULL_ROTATION ->
  s16 (a - hp) = a - hp.
Proof.
  unfold AU_FULL_ROTATION. intros Ha Hh. apply s16_small. lia.
Qed.

Lemma scan_step_keeps (hp tsn ttn : Z) (s0 : state) (i : Z) (l : locals)
    (s : state) :
  scan_inv hp tsn ttn s0 i l s ->
  exists l' s',
    scan_step P i l s = (Val l', s') /\ scan_inv hp tsn ttn s0 (i + 1) l' s'.
Proof.
  intros (Hi & (Hhp & Htsn & Httn & Hw) & Hframe & Hch & Herr & Hseen & Hmin).
  unfold scan_step. unfold_M.
  destruct (file_read P (currentFileOffset l) (sizeof_atxSectorHeader P)
              (atari_sector_buffer s)) as [n b].
  destruct (n =? 0).
  { (* the read fails: nothing changes *)
    eexists; eexists; split; [reflexivity|].
    unfold scan_inv; simpl.
    repeat split; try tauto; try lia.
    - apply (Hseen o H).
    - destruct (Hseen o H); lia.
    - destruct (Hseen o H); lia. }
  simpl. set (h := as_atxSectorHeader P b).
  rewrite Htsn.
  destruct (number h =? tsn) eqn:Hnum.
  2:{ (* another sector *)
    eexists; eexists; split; [reflexivity|].
    unfold scan_inv; simpl.
    repeat split; try tauto; try lia.
    - apply (Hseen o H).
    - destruct (Hseen o H); lia.
    - destruct (Hseen o H); lia. }
  apply Z.eqb_eq in Hnum.
  destruct (replaces_best (s16 (timev h - headPosition l)) (pTT l)) eqn:Hrb.
  - (* the occurrence replaces the running best *)
    eexists; eexists; split; [reflexivity|].
    unfold scan_inv; simpl.
    rewrite final_choice_app; simpl.
    split; [lia|]. split; [tauto|]. split; [tauto|].
    split.
    { rewrite Hhp. repeat split; try reflexivity.
      apply in_or_app; right; left; reflexivity. }
    split.
    { rewrite existsb_app, Herr. simpl.
      destruct (status h >? 0); simpl.
      - rewrite orb_true_r. reflexivity.
      - rewrite !orb_false_r. reflexivity. }
    split.
    { intros o Ho. apply in_app_or in Ho as [Ho|[<-|[]]].
      - destruct (Hseen o Ho). split; [assumption|lia].
      - simpl. split; [assumption|lia]. }
    intros Hrange Hhead c o Hc Ho. injection Hc as <-. simpl.
    assert (Hh : 0 <= timev h < AU_FULL_ROTATION).
    { apply (Hrange (mkOccurrence i h true)).
      apply in_or_app; right; left; reflexivity. }
    apply in_app_or in Ho as [Ho|[<-|[]]]; [|simpl; lia].
    assert (Hold : forall o, In o (seen l) ->
                     0 <= timev (occ_header o) < AU_FULL_ROTATION).
    { intros o' Ho'. apply Hrange. apply in_or_app; left; assumption. }
    destruct (final_choice (seen l)) as [c0|] eqn:Hc0.
    + destruct Hch as (_ & HpTT & _ & _ & _ & Hin0).
      rewrite HpTT, Hhp in Hrb.
      rewrite !angle_difference in Hrb by auto.
      destruct (replaces_best_forward (timev h) (timev (occ_header c0)) hp)
        as [Hfwd _]; auto.
      specialize (Hfwd Hrb).
      specialize (Hmin Hold Hhead c0 o eq_refl Ho). lia.
    + destruct Hch as (Hnil & _). rewrite Hnil in Ho. destruct Ho.
  - (* the running best stays *)
    destruct (final_choice (seen l)) as [c0|] eqn:Hc0.
    2:{ destruct Hch as (_ & HpTT & _). rewrite HpTT in Hrb.
        rewrite replaces_best_first in Hrb. discriminate. }
    eexists; eexists; split; [reflexivity|].
    unfold scan_inv; simpl.
    rewrite final_choice_app; simpl. rewrite Hc0.
    split; [lia|]. split; [tauto|]. split; [tauto|].
    split.
    { destruct Hch as (H1 & H2 & H3 & H4 & H5 & H6).
      repeat split; try assumption.
      apply in_or_app; left; assumption. }
    split.
    { rewrite existsb_app, Herr. simpl. rewrite !orb_false_r. reflexivity. }
    split.
    { intros o Ho. apply in_app_or in Ho as [Ho|[<-|[]]].
      - destruct (Hseen o Ho). split; [assumption|lia].
      - simpl. split; [assumption|lia]. }
    intros Hrange Hhead c o Hc Ho. injection Hc as <-.
    assert (Hh : 0 <= timev h < AU_FULL_ROTATION).
    { apply (Hrange (mkOccurrence i h false)).
      apply in_or_app; right; left; reflexivity. }
    assert (Hold : forall o, In o (seen l) ->
                     0 <= timev (occ_header o) < AU_FULL_ROTATION).
    { intros o' Ho'. apply Hrange. apply in_or_app; left; assumption. }
    apply in_app_or in Ho as [Ho|[<-|[]]].
    + apply (Hmin Hold Hhead c0 o eq_refl Ho).
    + simpl. destruct Hch as (_ & HpTT & _ & _ & _ & Hin0).
      rewrite HpTT, Hhp in Hrb.
      rewrite !angle_difference in Hrb by auto.
      destruct (replaces_best_forward (timev h) (timev (occ_header c0)) hp)
        as [_ Hfwd]; auto.
Qed.

(** What one iteration adds to the occurrences met. *)
Lemma scan_step_log (i : Z) (l : locals) (s : state) :
  let r := file_read P (currentFileOffset l) (sizeof_atxSectorHeader P)
             (atari_sector_buffer s) in
  let h := as_atxSectorHeader P (snd r) in
  exists l' s',
    scan_step P i l s = (Val l', s')
    /\ atari_sector_buffer s' = snd r
    /\ tgtSectorNumber l' = tgtSectorNumber l
    /\ currentFileOffset l'
       = (if fst r =? 0 then currentFileOffset l
          else u32 (currentFileOffset l + sizeof_atxSectorHeader P))
    /\ map occ_entry (seen l')
       = map occ_entry (seen l)
         ++ (if fst r =? 0 then []
             else if number h =? tgtSectorNumber l then [(i, h)] else []).
Proof.
  unfold scan_step. unfold_M.
  destruct (file_read P (currentFileOffset l) (sizeof_atxSectorHeader P)
              (atari_sector_buffer s)) as [n b].
  cbn [fst snd].
  destruct (n =? 0).
  { eexists; eexists; split; [reflexivity|]. simpl.
    rewrite app_nil_r. repeat split; reflexivity. }
  simpl.
  destruct (number (as_atxSectorHeader P b) =? tgtSectorNumber l).
  - destruct (replaces_best _ (pTT l));
      (eexists; eexists; split; [reflexivity|]); simpl;
      rewrite map_app; repeat split; reflexivity.
  - eexists; eexists; split; [reflexivity|]. simpl.
    rewrite app_nil_r. repeat split; reflexivity.
Qed.

(** The occurrences met by the loop are those listed, in their order. *)
Lemma scan_loop_log (n : nat) :
  forall i l s l' s',
    for_loop n i (scan_step P) l s = (Val l', s') ->
    map occ_entry (seen l')
    = map occ_entry (seen l)
      ++ listed_from P (tgtSectorNumber l) n i (currentFileOffset l)
           (atari_sector_buffer s).
Proof.
  induction n as [|n IH]; intros i l s l' s' H; simpl in H.
  - injection H as <- <-. simpl. rewrite app_nil_r. reflexivity.
  - unfold bind in H.
    destruct (scan_step_log i l s) as (l1 & s1 & Hstep & Hb & Ht & Hc & Hlog).
    rewrite Hstep in H. apply IH in H.
    rewrite H, Hlog, Ht, Hc, Hb. simpl.
    destruct (file_read P (currentFileOffset l) (sizeof_atxSectorHeader P)
                (atari_sector_buffer s)) as [r b].
    cbn [fst snd]. destruct (r =? 0).
    + rewrite app_nil_r. reflexivity.
    + rewrite <- app_assoc. reflexivity.
Qed.

Lemma scan_sector_list_log (ttn tsn hp off cnt hs : Z) (s : state)
    (l : locals) (s' : state) :
  scan_sector_list P ttn tsn hp off cnt hs s = (Val l, s') ->
  map occ_entry (seen l)
  = listed_from P tsn (Z.to_nat cnt) 0
      (fst (sector_list_start P off cnt hs (atari_sector_buffer s)))
      (snd (sector_list_start P off cnt hs (atari_sector_buffer s))).
Proof.
  unfold scan_sector_list, sector_list_start. unfold_M.
  destruct (file_read P (u32 (off + hs)) (sizeof_atxSectorListHeader P)
              (atari_sector_buffer s)) as [n b].
  cbv beta iota. cbn [fst snd].
  match goal with
  | |- context [for_loop ?k 0 ?body ?l0 ?se] =>
      destruct (for_loop k 0 body l0 se) as [[l1| v | f |] s1] eqn:Hloop
  end; intros H; try discriminate.
  injection H as <- <-.
  apply scan_loop_log in Hloop. simpl in Hloop. exact Hloop.
Qed.

End Scan.

(** ** The sector reader, up to the end of the scan *)

Section Locate.

Variable P : Platform.

Lemma target_run (num : Z) (s : state) :
  target num s
  = if gSectorsPerTrack s =? 0 then (Fault DivisionByZero, s)
    else if track_of (gSectorsPerTrack s) num >? 40
         then (Ret 0, set_out_status 247 s)
         else (Val (track_of (gSectorsPerTrack s) num,
                    sector_of (gSectorsPerTrack s) num),
               set_out_status 247 s).
Proof.
  unfold target, track_of, sector_of. unfold_M.
  destruct (gSectorsPerTrack s =? 0); [reflexivity|]. simpl.
  destruct (_ >? 40); reflexivity.
Qed.

Lemma seek_run (tgt : Z) (s : state) :
  seek tgt s
  = (Val tt,
     set_gCurrentHeadTrack tgt
       (emit_all
          (Delay MS_DRIVE_REQUEST_DELAY :: seek_events (gCurrentHeadTrack s) tgt)
          s)).
Proof.
  unfold seek, seek_events, bind, gets.
  unfold _delay_ms at 1. unfold modify at 1. cbn [gCurrentHeadTrack emit].
  destruct (negb (gCurrentHeadTrack s =? tgt)); cbv beta.
  - rewrite repeat_delay_run. unfold _delay_ms, modify.
    change (emit_all (?e :: ?evs) s) with (emit_all evs (emit e s)).
    rewrite emit_all_app. reflexivity.
  - unfold ret, modify. reflexivity.
Qed.

Lemma scan_inv_last_angle (hp tsn ttn : Z) (s0 : state) (i : Z) (l : locals)
    (s : state) (g : Z) :
  scan_inv hp tsn ttn s0 i l s ->
  scan_inv hp tsn ttn s0 i l (set_last_angle_returned g s).
Proof. unfold scan_inv. simpl. tauto. Qed.

(** The scan completes, with the invariant at the sector count. *)
Lemma scan_sector_list_run (ttn tsn hp off cnt hs : Z) (s : state) :
  0 <= cnt ->
  exists l s',
    scan_sector_list P ttn tsn hp off cnt hs s = (Val l, s') /\
    scan_inv hp tsn ttn s cnt l s'.
Proof.
  intros Hcnt. unfold scan_sector_list. unfold_M.
  destruct (file_read P (u32 (off + hs)) (sizeof_atxSectorListHeader P)
              (atari_sector_buffer s)) as [n b].
  cbv beta iota.
  match goal with
  | |- context [for_loop ?k 0 ?body ?l0 ?se] =>
      destruct (for_loop_invariant (scan_inv hp tsn ttn s) body cnt
                  (fun j x y _ HI => scan_step_keeps P hp tsn ttn s j x y HI)
                  k 0 l0 se) as (l & s1 & Hloop & Hinv)
  end.
  - rewrite Z2Nat.id by assumption. lia.
  - unfold scan_inv. simpl.
    repeat split; try reflexivity; try lia; intros; contradiction.
  - rewrite Hloop. eexists; eexists; split; [reflexivity|].
    apply scan_inv_last_angle.
    rewrite Z.add_0_l, Z2Nat.id in Hinv by assumption. exact Hinv.
Qed.

Lemma u16_nonneg (x : Z) : 0 <= u16 x.
Proof. unfold u16. apply Z.mod_pos_bound. lia. Qed.

(** Lines 109-191 as a decision tree. *)
Lemma locate_run (drive num : Z) (s : state) :
  let spt := gSectorsPerTrack s in
  let ttn := track_of spt num in
  let th := track_header_read P drive num s in
  locate P drive num s
  = if spt =? 0 then (Fault DivisionByZero, s)
    else if ttn >? 40 then (Ret 0, set_out_status 247 s)
    else if in_gTrackInfo drive (ttn - 1) then
      if track_rejected P drive num s
      then (Ret 0, at_track_read P drive num s)
      else scan_sector_list P ttn (sector_of spt num) (first_sample P s)
             (gTrackInfo_offset drive (ttn - 1) s)
             (u16 (sectorCount th)) (headerSize th)
             (at_track_read P drive num s)
    else (Fault (TrackInfoOutOfBounds drive (ttn - 1)), after_sample P num s).
Proof.
  intros spt ttn th. unfold locate.
  unfold bind at 1. rewrite target_run. fold spt. fold ttn.
  destruct (spt =? 0); [reflexivity|].
  destruct (ttn >? 40); [reflexivity|].
  simpl fst; simpl snd.
  unfold bind at 1. rewrite seek_run.
  unfold bind at 1. unfold getCurrentHeadPosition at 1.
  pose proof (emit_all_fields
                (Delay MS_DRIVE_REQUEST_DELAY
                 :: seek_events (gCurrentHeadTrack (set_out_status 247 s)) ttn)
                (set_out_status 247 s))
    as (E1&E2&E3&E4&E5&E6&E7&E8&E9&E10&E11&E12).
  cbn [clock set_gCurrentHeadTrack]. rewrite E10.
  unfold bind at 1. unfold load_gTrackInfo.
  destruct (in_gTrackInfo drive (ttn - 1)) eqn:Hin; [|reflexivity].
  unfold gets at 1.
  unfold bind at 1. unfold faccess_offset at 1.
  unfold bind at 1. unfold gets at 1.
  unfold gTrackInfo_offset at 1 2 3.
  cbn [gTrackInfo atari_sector_buffer emit tick_clock set_gCurrentHeadTrack].
  rewrite E1, E5.
  unfold track_rejected, th, track_header_read, at_track_read.
  fold spt. fold ttn. cbv zeta. unfold first_sample, after_sample.
  fold spt. fold ttn. cbv zeta. unfold gTrackInfo_offset.
  change (gTrackInfo (set_out_status 247 s)) with (gTrackInfo s).
  change (atari_sector_buffer (set_out_status 247 s))
    with (atari_sector_buffer s).
  destruct (file_read P _ (sizeof_atxTrackHeader P) (atari_sector_buffer s))
    as [n b] eqn:Hread.
  cbn [snd atari_sector_buffer emit set_buffer].
  destruct ((u16 (sectorCount (as_atxTrackHeader P b)) =? 0)
            || negb (trackNumber (as_atxTrackHeader P b) =? ttn - 1));
    reflexivity.
Qed.

(** The five ways through lines 109-191. *)
Lemma locate_cases (drive num : Z) (s : state) :
  let spt := gSectorsPerTrack s in
  let ttn := track_of spt num in
  let th := track_header_read P drive num s in
  (spt = 0 /\ locate P drive num s = (Fault DivisionByZero, s))
  \/ (spt <> 0 /\ ttn > 40 /\ locate P drive num s = (Ret 0, set_out_status 247 s))
  \/ (spt <> 0 /\ ttn <= 40 /\ in_gTrackInfo drive (ttn - 1) = false
      /\ locate P drive num s
         = (Fault (TrackInfoOutOfBounds drive (ttn - 1)), after_sample P num s))
  \/ (spt <> 0 /\ ttn <= 40 /\ in_gTrackInfo drive (ttn - 1) = true
      /\ track_rejected P drive num s = true
      /\ locate P drive num s = (Ret 0, at_track_read P drive num s))
  \/ (spt <> 0 /\ ttn <= 40 /\ in_gTrackInfo drive (ttn - 1) = true
      /\ track_rejected P drive num s = false
      /\ exists l s1,
           locate P drive num s = (Val l, s1) /\
           scan_inv (first_sample P s) (sector_of spt num) ttn
             (at_track_read P drive num s) (u16 (sectorCount th)) l s1).
Proof.
  intros spt ttn th. rewrite locate_run. fold spt. fold ttn. fold th.
  destruct (Z.eqb_spec spt 0) as [Hz|Hnz]; [left; split; [assumption|reflexivity]|].
  right.
  destruct (ttn >? 40) eqn:Hgt.
  { left. split; [assumption|]. split; [lia|reflexivity]. }
  right. assert (Hle : ttn <= 40) by lia.
  destruct (in_gTrackInfo drive (ttn - 1)) eqn:Hin.
  2:{ left. repeat split; assumption. }
  right.
  destruct (track_rejected P drive num s) eqn:Hrj.
  - left. repeat split; assumption.
  - right. repeat split; try assumption.
    apply scan_sector_list_run. apply u16_nonneg.
Qed.

(** The occurrences met by a call that reaches the end of the scan. *)
Lemma locate_listed (drive num : Z) (s : state) (l : locals) (s1 : state) :
  locate P drive num s = (Val l, s1) ->
  map occ_entry (seen l) = listed_occurrences P drive num s.
Proof.
  rewrite locate_run. unfold listed_occurrences.
  destruct (gSectorsPerTrack s =? 0); [discriminate|].
  destruct (_ >? 40); [discriminate|].
  destruct (in_gTrackInfo drive _); [|discriminate].
  destruct (track_rejected P drive num s); [discriminate|].
  apply scan_sector_list_log.
Qed.

End Locate.

(** ** The sector reader, from the extended records on *)

Section Deliver.

Variable P : Platform.

Lemma same_globals_refl (s : state) : same_globals s s.
Proof. unfold same_globals. repeat split; reflexivity. Qed.

Lemma ext_step_keeps (l0 : locals) (s0 : state) (i : Z) (l : locals)
    (s : state) :
  ext_inv l0 s0 i l s ->
  exists l' s',
    ext_step P i l s = (Val l', s') /\ ext_inv l0 s0 (i + 1) l' s'.
Proof.
  intros (Hl & Hw & Hs). unfold ext_step. unfold_M.
  destruct (file_read P (currentFileOffset l)
              (sizeof_atxExtendedSectorData P) (atari_sector_buffer s))
    as [n b].
  destruct (n =? 0).
  { eexists; eexists; split; [reflexivity|].
    unfold ext_inv, same_globals in *; simpl. tauto. }
  simpl.
  destruct ((ext_sectorIndex (as_atxExtendedSectorData P b) =? tgtSectorIndex l)
            && (ext_type (as_atxExtendedSectorData P b) =? 16)).
  - eexists; eexists; split; [reflexivity|].
    unfold ext_inv, same_globals in *; simpl.
    split; [tauto|]. split; [apply s16_range|tauto].
  - eexists; eexists; split; [reflexivity|].
    unfold ext_inv, same_globals in *; simpl. tauto.
Qed.

Lemma weak_data_run (drive : Z) (l : locals) (s : state) :
  in_gTrackInfo drive (tgtTrackNumber l - 1) = true ->
  -32768 <= weakOffset l < 32768 ->
  exists l1 s1,
    weak_data P drive l s = (Val l1, s1) /\
    ext_inv l s (Z.max 0 (extendedDataRecords l)) l1 s1.
Proof.
  intros Hin Hw. unfold weak_data.
  destruct (extendedDataRecords l >? 0) eqn:Hext.
  - unfold_M. rewrite Hin. simpl.
    match goal with
    | |- context [for_loop ?k 0 ?body ?l0 ?se] =>
        destruct (for_loop_invariant (ext_inv l s) body
                    (extendedDataRecords l)
                    (fun j x y _ HI => ext_step_keeps l s j x y HI)
                    k 0 l0 se) as (l1 & s1 & Hloop & Hinv)
    end.
    + rewrite Z2Nat.id by lia. lia.
    + unfold ext_inv. simpl. split; [tauto|]. split; [assumption|].
      apply same_globals_refl.
    + exists l1, s1. split; [exact Hloop|].
      rewrite Z.add_0_l, Z2Nat.id in Hinv by lia.
      rewrite Z.max_r by lia. exact Hinv.
  - exists l, s. split; [reflexivity|].
    unfold ext_inv. split; [tauto|]. split; [assumption|].
    apply same_globals_refl.
Qed.

(** The value to return is forced to 0 by [hasError]; the locals are
    otherwise the same, and of the globals only [*sectorSize] moves. *)
Lemma read_data_run (drive : Z) (l : locals) (s : state) :
  in_gTrackInfo drive (tgtTrackNumber l - 1) = true ->
  exists n s2,
    read_data P drive l s
    = (Val (set_tgtSectorIndex (if hasError l then 0 else n) l), s2) /\
    same_globals (set_out_sectorSize (gBytesPerSector s) s) s2 /\
    (tgtSectorOffset l = 0 ->
     n = 0 /\ atari_sector_buffer s2 = atari_sector_buffer s
     /\ trace s2 = trace s) /\
    (tgtSectorOffset l <> 0 ->
     let offset := u32 (gTrackInfo_offset drive (tgtTrackNumber l - 1) s
                        + tgtSectorOffset l) in
     let r := file_read P offset (gBytesPerSector s) (atari_sector_buffer s) in
     n = u16 (fst r) /\ atari_sector_buffer s2 = snd r
     /\ trace s2 = trace s ++ [FileRead offset (gBytesPerSector s)]).
Proof.
  intros Hin. unfold read_data. unfold_M. simpl.
  destruct (Z.eqb_spec (tgtSectorOffset l) 0) as [Hz|Hnz]; simpl.
  - exists 0. eexists. split; [reflexivity|].
    split; [apply same_globals_refl|]. split; [|contradiction].
    intros _. repeat split; reflexivity.
  - rewrite Hin. simpl.
    unfold gTrackInfo_offset. simpl.
    destruct (file_read P _ (gBytesPerSector s) (atari_sector_buffer s))
      as [n b] eqn:Hread.
    exists (u16 n). eexists. split; [reflexivity|].
    split; [unfold same_globals; simpl; tauto|].
    split; [contradiction|]. intros _. simpl. repeat split; reflexivity.
Qed.

Lemma rotation_delay_run (l : locals) (s : state) :
  rotation_delay P l s
  = (Val tt,
     emit_all
       (replicate
          (delay_iterations P (gLastAngle s) (headPosition l)
             (first_sample P s))
          (Delay MS_ONE))
       (emit (HeadSample (first_sample P s)) (tick_clock s))).
Proof.
  unfold rotation_delay, bind, getCurrentHeadPosition, gets, first_sample.
  simpl. apply repeat_delay_run.
Qed.

(** The loop body of the weak bytes, inside the sector buffer. *)
Lemma randomize_step_keeps (K : Z) (s0 : state) (i : Z) (u : unit)
    (s : state) :
  0 <= K -> i < 256 ->
  weak_inv P K s0 i u s ->
  exists u' s',
    randomize_step P i u s = (Val u', s') /\ weak_inv P K s0 (i + 1) u' s'.
Proof.
  intros HK Hi
    (Hle & H1 & H2 & H3 & H4 & H5 & H6 & H7 & H8 & H9 & Hseed & Htr & Hl
     & Hlow & Hhigh).
  unfold randomize_step. unfold_M.
  assert (Hb : (0 <=? i) && (i <? 256) = true).
  { apply andb_true_iff. split; [apply Z.leb_le|apply Z.ltb_lt]; lia. }
  simpl. rewrite Hb.
  eexists; eexists; split; [reflexivity|].
  unfold weak_inv; simpl.
  split; [lia|].
  do 9 (split; [assumption|]).
  split; [rewrite Hseed; replace (i + 1 - K) with (Z.succ (i - K)) by lia;
          rewrite Z2Nat.inj_succ by lia; lia|].
  split.
  { rewrite Htr. replace (i + 1 - K) with (Z.succ (i - K)) by lia.
    rewrite Z2Nat.inj_succ by lia.
    rewrite <- app_assoc. f_equal.
    change (S (Z.to_nat (i - K))) with (1 + Z.to_nat (i - K))%nat.
    rewrite Nat.add_comm, replicate_add. reflexivity. }
  split; [rewrite length_insert; assumption|].
  split.
  - intros j Hj. rewrite list_lookup_insert_ne by lia. apply Hlow. assumption.
  - intros Hlen j Hj. destruct (Z.eq_dec j i) as [->|Hne].
    + rewrite list_lookup_insert_eq by (rewrite Hl, Hlen; lia).
      rewrite Hseed. reflexivity.
    + rewrite list_lookup_insert_ne by lia. apply Hhigh; [assumption|lia].
Qed.

Lemma weak_inv_start (K : Z) (s : state) : weak_inv P K s K tt s.
Proof.
  unfold weak_inv. rewrite Z.sub_diag. simpl.
  rewrite Nat.add_0_r, app_nil_r.
  repeat split; try reflexivity; try lia.
Qed.

(** Lines 215-220 when a weak offset was found. *)
Lemma randomize_weak (l : locals) (s : state) :
  0 <= weakOffset l < 32768 ->
  gBytesPerSector s <= 256 ->
  exists s',
    randomize P l s = (Val tt, s') /\
    weak_inv P (weakOffset l) s
      (Z.max (weakOffset l) (gBytesPerSector s)) tt s'.
Proof.
  intros HK Hbps. unfold randomize.
  assert (Hu : u16 (weakOffset l) = weakOffset l) by (apply u16_small; lia).
  rewrite Hu.
  destruct (weakOffset l >? -1) eqn:Hgt; [|lia].
  unfold bind at 1. unfold gets at 1.
  destruct (for_loop_invariant (weak_inv P (weakOffset l) s)
              (randomize_step P)
              (Z.max (weakOffset l) (gBytesPerSector s))
              (fun j x y Hj HI =>
                 randomize_step_keeps (weakOffset l) s j x y
                   (proj1 HK)
                   (ltac:(destruct HI as [HI _]; lia)) HI)
              (Z.to_nat (gBytesPerSector s - weakOffset l)) (weakOffset l)
              tt s) as ([] & s' & Hloop & Hinv).
  - lia.
  - apply weak_inv_start.
  - exists s'. split; [exact Hloop|].
    replace (weakOffset l + Z.of_nat (Z.to_nat (gBytesPerSector s - weakOffset l)))
      with (Z.max (weakOffset l) (gBytesPerSector s)) in Hinv by lia.
    exact Hinv.
Qed.

(** Lines 215-220 when none was found. *)
Lemma randomize_none (l : locals) (s : state) :
  weakOffset l <= -1 -> randomize P l s = (Val tt, s).
Proof.
  intros H. unfold randomize.
  destruct (weakOffset l >? -1) eqn:Hgt; [lia|reflexivity].
Qed.

(** A property of the state that every iteration keeps, however the
    iteration ends, holds however the loop ends. *)
Lemma for_loop_frame {A : Type} (R : state -> Prop) (body : Z -> A -> M A) :
  (forall i a s, R s -> R (snd (body i a s))) ->
  forall n i a s, R s -> R (snd (for_loop n i body a s)).
Proof.
  intros Hbody. induction n as [|n IH]; intros i a s HR; simpl.
  - assumption.
  - unfold bind. specialize (Hbody i a s HR).
    destruct (body i a s) as [[a'| v | f |] s']; simpl in *;
      try assumption.
    apply IH. assumption.
Qed.

Lemma randomize_status (l : locals) (s : state) :
  out_status (snd (randomize P l s)) = out_status s.
Proof.
  unfold randomize. destruct (weakOffset l >? -1); [|reflexivity].
  unfold bind at 1. unfold gets at 1.
  apply (for_loop_frame (fun s' => out_status s' = out_status s));
    [|reflexivity].
  intros i a s0 H0. unfold randomize_step. unfold_M. simpl.
  destruct ((0 <=? i) && (i <? 256)); simpl; assumption.
Qed.

Lemma for_loop_no_fault {A : Type} (f : fault) (body : Z -> A -> M A) :
  (forall i a s, fst (body i a s) <> Fault f) ->
  forall n i a s, fst (for_loop n i body a s) <> Fault f.
Proof.
  intros Hbody. induction n as [|n IH]; intros i a s; simpl.
  - discriminate.
  - unfold bind. specialize (Hbody i a s).
    destruct (body i a s) as [[a'| v | f' |] s']; simpl in *;
      try discriminate; [apply IH|assumption].
Qed.

Lemma randomize_no_division (l : locals) (s : state) :
  fst (randomize P l s) <> Fault DivisionByZero.
Proof.
  unfold randomize. destruct (weakOffset l >? -1); [|discriminate].
  unfold bind at 1. unfold gets at 1.
  apply for_loop_no_fault.
  intros i a s0. unfold randomize_step. unfold_M. simpl.
  destruct ((0 <=? i) && (i <? 256)); simpl; discriminate.
Qed.

(** Lines 193-240 once the three phases before the delay have completed. *)
Lemma deliver_from (drive : Z) (l l1 l2 : locals) (s s1 s2 s3 : state) :
  weak_data P drive l s = (Val l1, s1) ->
  read_data P drive l1 s1 = (Val l2, s2) ->
  randomize P l2 s2 = (Val tt, s3) ->
  deliver P drive l s
  = (Ret (tgtSectorIndex l2),
     emit_all
       (replicate
          (delay_iterations P (gLastAngle s3) (headPosition l2)
             (first_sample P s3))
          (Delay MS_ONE))
       (emit (HeadSample (first_sample P s3)) (tick_clock s3))).
Proof.
  intros Hw Hr Hz. unfold deliver, bind. rewrite Hw, Hr, Hz.
  rewrite rotation_delay_run. reflexivity.
Qed.

Lemma deliver_status (drive : Z) (l : locals) (s : state) :
  in_gTrackInfo drive (tgtTrackNumber l - 1) = true ->
  -32768 <= weakOffset l < 32768 ->
  out_status (snd (deliver P drive l s)) = out_status s.
Proof.
  intros Hin Hw.
  destruct (weak_data_run drive l s Hin Hw) as (l1 & s1 & Hwd & Hl1 & Hw1 & Hg1).
  assert (Hin1 : in_gTrackInfo drive (tgtTrackNumber l1 - 1) = true)
    by (destruct Hl1 as (-> & _); assumption).
  destruct (read_data_run drive l1 s1 Hin1) as (n & s2 & Hrd & Hg2 & _).
  unfold deliver, bind. rewrite Hwd, Hrd.
  pose proof (randomize_status
                (set_tgtSectorIndex (if hasError l1 then 0 else n) l1) s2)
    as Hrs.
  assert (H12 : out_status s2 = out_status s).
  { destruct Hg1 as (_&_&_&_&_&_&_&E1&_). destruct Hg2 as (_&_&_&_&_&_&_&E2&_).
    rewrite E2. simpl. exact E1. }
  destruct (randomize P _ s2) as [[[]| v | f |] s3]; simpl in *;
    try congruence.
  rewrite rotation_delay_run. unfold return_. cbn [snd].
  match goal with
  | |- context [emit_all ?evs ?st] =>
      destruct (emit_all_fields evs st) as (_&_&_&_&_&_&_&_&E&_)
  end.
  rewrite E. simpl. congruence.
Qed.

Lemma loadAtxSector_run (drive num : Z) (s : state) :
  loadAtxSector P drive num s
  = match locate P drive num s with
    | (Val l, s1) => call (deliver P drive l) s1
    | (Ret v, s1) => (Val v, s1)
    | (Fault f, s1) => (Fault f, s1)
    | (OutOfFuel, s1) => (OutOfFuel, s1)
    end.
Proof.
  unfold loadAtxSector, call, bind.
  destruct (locate P drive num s) as [[l| v | f |] s1]; reflexivity.
Qed.

(** The state at line 146, field by field. *)
Lemma at_track_read_fields (drive num : Z) (s : state) :
  let ttn := track_of (gSectorsPerTrack s) num in
  let s4 := at_track_read P drive num s in
  last_angle_returned s4 = last_angle_returned s
  /\ gBytesPerSector s4 = gBytesPerSector s
  /\ gSectorsPerTrack s4 = gSectorsPerTrack s
  /\ gTrackInfo s4 = gTrackInfo s
  /\ gLastAngle s4 = gLastAngle s
  /\ gCurrentHeadTrack s4 = ttn
  /\ out_sectorSize s4 = out_sectorSize s
  /\ out_status s4 = 247
  /\ clock s4 = S (clock s)
  /\ seed s4 = seed s
  /\ trace s4
     = trace s
       ++ Delay MS_DRIVE_REQUEST_DELAY
          :: seek_events (gCurrentHeadTrack s) ttn
       ++ [HeadSample (first_sample P s);
           FileRead (gTrackInfo_offset drive (ttn - 1) s)
             (sizeof_atxTrackHeader P)].
Proof.
  intros ttn s4. subst s4. unfold at_track_read, after_sample. fold ttn.
  cbv zeta.
  destruct (emit_all_fields
              (Delay MS_DRIVE_REQUEST_DELAY
               :: seek_events (gCurrentHeadTrack s) ttn)
              (set_out_status 247 s))
    as (E1&E2&E3&E4&E5&E6&E7&E8&E9&E10&E11&E12).
  cbn [last_angle_returned gBytesPerSector gSectorsPerTrack gTrackInfo
       gLastAngle gCurrentHeadTrack out_sectorSize out_status clock seed trace
       emit tick_clock set_buffer set_gCurrentHeadTrack].
  rewrite E2, E3, E4, E5, E6, E8, E9, E10, E11, E12.
  cbn [last_angle_returned gBytesPerSector gSectorsPerTrack gTrackInfo
       gLastAngle gCurrentHeadTrack out_sectorSize out_status clock seed trace
       set_out_status].
  repeat split; try reflexivity.
  rewrite <- !app_assoc. reflexivity.
Qed.

End Deliver.

(** ** Counting the samples *)

Lemma head_samples_app (a b : list event) :
  head_samples (a ++ b) = (head_samples a + head_samples b)%nat.
Proof.
  induction a as [|e a IH]; simpl; [reflexivity|].
  destruct e; simpl; rewrite IH; reflexivity.
Qed.

Lemma head_samples_delays (n : nat) (d : delay) :
  head_samples (replicate n (Delay d)) = O.
Proof. induction n as [|n IH]; simpl; [reflexivity|assumption]. Qed.

Lemma head_samples_seek (cur tgt : Z) : head_samples (seek_events cur tgt) = O.
Proof.
  unfold seek_events. destruct (negb (cur =? tgt)); [|reflexivity].
  rewrite head_samples_app, head_samples_delays. reflexivity.
Qed.

(** ** The sector reader: the claims *)

Section Sector.

Variable P : Platform.

(** A call that reaches the end of the scan went through the two guards and
    holds the invariant of the scan. *)
Lemma locate_val (drive num : Z) (s : state) (l : locals) (s1 : state) :
  locate P drive num s = (Val l, s1) ->
  gSectorsPerTrack s <> 0
  /\ track_of (gSectorsPerTrack s) num <= 40
  /\ in_gTrackInfo drive (track_of (gSectorsPerTrack s) num - 1) = true
  /\ track_rejected P drive num s = false
  /\ scan_inv (first_sample P s) (sector_of (gSectorsPerTrack s) num)
       (track_of (gSectorsPerTrack s) num) (at_track_read P drive num s)
       (u16 (sectorCount (track_header_read P drive num s))) l s1.
Proof.
  intros H.
  destruct (locate_cases P drive num s)
    as [(_ & E)|[(_ & _ & E)|[(_ & _ & _ & E)|[(_ & _ & _ & _ & E)
       |(H1 & H2 & H3 & H4 & l' & s' & E & Hinv)]]]];
    rewrite E in H; try discriminate.
  injection H as <- <-. do 4 (split; [assumption|]). exact Hinv.
Qed.

(** The occurrences met are the listed ones. *)
Lemma seen_listed (drive num : Z) (s : state) (l : locals) (s1 : state) :
  locate P drive num s = (Val l, s1) ->
  (forall o, In o (seen l) ->
     In (occ_index o, occ_header o) (listed_occurrences P drive num s))
  /\ (forall i h, In (i, h) (listed_occurrences P drive num s) ->
        exists o, In o (seen l) /\ occ_index o = i /\ occ_header o = h).
Proof.
  intros Hloc. pose proof (locate_listed P drive num s l s1 Hloc) as Hmap.
  rewrite <- Hmap. split.
  - intros o Ho. apply (in_map occ_entry) in Ho. exact Ho.
  - intros i h Hih. apply in_map_iff in Hih as (o & Heq & Ho).
    exists o. unfold occ_entry in Heq. injection Heq as <- <-.
    repeat split; assumption.
Qed.

(** C1.  When the call reaches the scan and the sector list of the track
    holds a header with the requested number, the occurrence the scan ends
    with (its list index is in [tgtSectorIndex], its angle in [gLastAngle])
    is one of least forward distance from the head sample of line 141,
    among all the listed occurrences of that sector, wrapped ones (behind
    the head) included; angles and head sample lie within one rotation. *)
Theorem scan_chooses_least_forward_distance (drive num : Z) (st : state)
    (l : locals) (st1 : state) :
  locate P drive num st = (Val l, st1) ->
  listed_occurrences P drive num st <> [] ->
  (forall i h, In (i, h) (listed_occurrences P drive num st) ->
     0 <= timev h < AU_FULL_ROTATION) ->
  0 <= first_sample P st < AU_FULL_ROTATION ->
  exists h,
    In (tgtSectorIndex l, h) (listed_occurrences P drive num st)
    /\ headPosition l = first_sample P st
    /\ tgtSectorOffset l = u32 (data h)
    /\ gLastAngle st1 = timev h
    /\ forall i' h', In (i', h') (listed_occurrences P drive num st) ->
         forward_distance (timev h) (first_sample P st)
         <= forward_distance (timev h') (first_sample P st).
Proof.
  intros Hloc Hne Hrange Hhead.
  destruct (seen_listed drive num st l st1 Hloc) as [Hin Hout].
  destruct (locate_val drive num st l st1 Hloc)
    as (_ & _ & _ & _ & Hinv).
  destruct Hinv as (_ & (Hhp & _) & _ & Hch & _ & _ & Hmin).
  assert (Hrange' : forall o, In o (seen l) ->
                      0 <= timev (occ_header o) < AU_FULL_ROTATION).
  { intros o Ho. apply (Hrange (occ_index o)). apply Hin. assumption. }
  destruct (final_choice (seen l)) as [o|] eqn:Hfc.
  - destruct Hch as (Hidx & _ & Hang & _ & Hoff & Ho).
    exists (occ_header o). rewrite <- Hidx.
    split; [apply Hin; assumption|].
    split; [assumption|]. split; [assumption|].
    split.
    + rewrite Hang. apply u16_small.
      pose proof (Hrange' o Ho). unfold AU_FULL_ROTATION in *. lia.
    + intros i' h' Hih. destruct (Hout i' h' Hih) as (o' & Ho' & _ & <-).
      apply (Hmin Hrange' Hhead o o' eq_refl Ho').
  - destruct Hch as (Hnil & _).
    pose proof (locate_listed P drive num st l st1 Hloc) as Hmap.
    rewrite Hnil in Hmap. simpl in Hmap. congruence.
Qed.

(** C3, as the code has it.  When the division is defined, the track is
    at most 40 and inside the table, and the track header found has no
    sectors or another track number, the call returns 0 at line 151, in the
    state left by the read of the track header: the status is 0xF7, the
    sector size and [gLastAngle] are untouched, one sample of the head
    position was taken, and the trace holds the request delay, the seek
    delays, that sample and that read, nothing after them. *)
Theorem loadAtxSector_rejected_track_returns_at_once (drive num : Z)
    (st : state) :
  gSectorsPerTrack st <> 0 ->
  track_of (gSectorsPerTrack st) num <= 40 ->
  in_gTrackInfo drive (track_of (gSectorsPerTrack st) num - 1) = true ->
  u16 (sectorCount (track_header_read P drive num st)) = 0
  \/ trackNumber (track_header_read P drive num st)
     <> track_of (gSectorsPerTrack st) num - 1 ->
  let st' := snd (loadAtxSector P drive num st) in
  loadAtxSector P drive num st = (Val 0, at_track_read P drive num st)
  /\ out_status st' = 247
  /\ out_sectorSize st' = out_sectorSize st
  /\ gLastAngle st' = gLastAngle st
  /\ clock st' = S (clock st)
  /\ head_samples (trace st') = S (head_samples (trace st))
  /\ trace st'
     = trace st
       ++ Delay MS_DRIVE_REQUEST_DELAY
          :: seek_events (gCurrentHeadTrack st)
               (track_of (gSectorsPerTrack st) num)
       ++ [HeadSample (first_sample P st);
           FileRead
             (gTrackInfo_offset drive
                (track_of (gSectorsPerTrack st) num - 1) st)
             (sizeof_atxTrackHeader P)].
Proof.
  intros Hspt Hle Hin Hbad st'.
  assert (Hrej : track_rejected P drive num st = true).
  { unfold track_rejected. apply orb_true_iff.
    destruct Hbad as [Hz|Hne].
    - left. apply Z.eqb_eq. assumption.
    - right. apply negb_true_iff. apply Z.eqb_neq. assumption. }
  assert (Hrun : loadAtxSector P drive num st
                 = (Val 0, at_track_read P drive num st)).
  { rewrite loadAtxSector_run, locate_run.
    destruct (Z.eqb_spec (gSectorsPerTrack st) 0); [contradiction|].
    destruct (Z.gtb_spec (track_of (gSectorsPerTrack st) num) 40); [lia|].
    rewrite Hin, Hrej. reflexivity. }
  subst st'. rewrite Hrun. cbn [snd].
  destruct (at_track_read_fields P drive num st)
    as (_ & _ & _ & _ & E5 & _ & E7 & E8 & E9 & _ & E11).
  repeat split; try assumption.
  rewrite E11, !head_samples_app. simpl.
  rewrite head_samples_app, head_samples_seek. simpl. lia.
Qed.

(** C4.  When an occurrence that replaced the running best during the scan
    carries a nonzero status byte, the call returns 0, whatever the data
    offset, the read of the data and the status of the occurrence chosen
    in the end.  (The number of bytes per sector fits the sector buffer.) *)
Theorem loadAtxSector_error_flag_sticks (drive num : Z) (st : state)
    (l : locals) (st1 : state) (o : occurrence) :
  locate P drive num st = (Val l, st1) ->
  In o (seen l) -> occ_taken o = true ->
  0 < status (occ_header o) < 256 ->
  gBytesPerSector st <= 256 ->
  hasError l = true
  /\ exists st', loadAtxSector P drive num st = (Val 0, st').
Proof.
  intros Hloc Hin Htaken Hstatus Hbps.
  destruct (locate_val drive num st l st1 Hloc)
    as (_ & _ & Hinb & _ & Hinv).
  destruct Hinv as (_ & (_ & _ & Httn & Hwo) & Hframe & _ & Herr & _).
  assert (HE : hasError l = true).
  { rewrite Herr. apply existsb_exists. exists o. split; [assumption|].
    rewrite Htaken. simpl. apply Z.gtb_lt. lia. }
  split; [assumption|].
  rewrite <- Httn in Hinb.
  destruct (weak_data_run P drive l st1 Hinb ltac:(lia))
    as (l1 & s1 & Hwd & Hl1 & Hw1 & Hg1).
  assert (Hin1 : in_gTrackInfo drive (tgtTrackNumber l1 - 1) = true)
    by (destruct Hl1 as (-> & _); assumption).
  destruct (read_data_run P drive l1 s1 Hin1) as (n & s2 & Hrd & Hg2 & _).
  assert (HE1 : hasError l1 = true)
    by (destruct Hl1 as (_&_&_&_&_&_&->&_); assumption).
  rewrite HE1 in Hrd.
  assert (Hbps2 : gBytesPerSector s2 <= 256).
  { destruct Hg2 as (_ & -> & _). simpl.
    destruct Hg1 as (_ & -> & _).
    destruct Hframe as (-> & _).
    destruct (at_track_read_fields P drive num st) as (_ & -> & _).
    assumption. }
  assert (Hrand : exists s3, randomize P (set_tgtSectorIndex 0 l1) s2
                             = (Val tt, s3)).
  { destruct (Z_le_gt_dec (weakOffset l1) (-1)) as [Hno|Hyes].
    - exists s2. apply randomize_none. assumption.
    - destruct (randomize_weak P (set_tgtSectorIndex 0 l1) s2) as (s3 & Hr & _).
      + simpl. lia.
      + assumption.
      + exists s3. assumption. }
  destruct Hrand as (s3 & Hrand).
  eexists. rewrite loadAtxSector_run, Hloc. unfold call.
  rewrite (deliver_from P drive l l1 _ st1 s1 s2 s3 Hwd Hrd Hrand).
  reflexivity.
Qed.

(** C6.  When the call returns, the status byte it leaves is the
    complement modulo 256 of the status byte of the occurrence the scan
    ended with (the listed occurrence at index [tgtSectorIndex]); it is
    0xF7 when the sector list holds no header with the requested number,
    and when the call returned before the scan. *)
Theorem loadAtxSector_status_is_complement (drive num : Z) (st : state)
    (v : Z) :
  fst (loadAtxSector P drive num st) = Val v ->
  match locate P drive num st with
  | (Val l, _) =>
      (listed_occurrences P drive num st = []
       /\ out_status (snd (loadAtxSector P drive num st)) = 247)
      \/ (exists h,
            In (tgtSectorIndex l, h) (listed_occurrences P drive num st)
            /\ out_status (snd (loadAtxSector P drive num st))
               = u08 (Z.lnot (status h)))
  | (_, _) => out_status (snd (loadAtxSector P drive num st)) = 247
  end.
Proof.
  intros Hv. rewrite loadAtxSector_run in *.
  destruct (locate_cases P drive num st)
    as [(_ & E)|[(_ & _ & E)|[(_ & _ & _ & E)|[(_ & _ & _ & _ & E)
       |(_ & _ & Hinb & _ & l & s1 & E & Hinv)]]]];
    rewrite E in *; simpl in *; try discriminate; try reflexivity.
  - destruct (at_track_read_fields P drive num st)
      as (_&_&_&_&_&_&_&E8&_). exact E8.
  - destruct (seen_listed drive num st l s1 E) as [Hin _].
    pose proof (locate_listed P drive num st l s1 E) as Hmap.
    destruct Hinv as (_ & (_ & _ & Httn & Hwo) & _ & Hch & _ & Hseen & _).
    assert (Hst : out_status (snd (call (deliver P drive l) s1))
                  = out_status s1).
    { rewrite <- (deliver_status P drive l s1).
      - unfold call. destruct (deliver P drive l s1) as [[]]; reflexivity.
      - rewrite Httn. assumption.
      - lia. }
    rewrite Hst.
    destruct (final_choice (seen l)) as [o|].
    + destruct Hch as (Hidx & _ & _ & Hs & _ & Ho).
      right. exists (occ_header o). rewrite <- Hidx.
      split; [apply Hin; assumption|assumption].
    + destruct Hch as (Hnil & _ & _ & _ & Hs & _).
      left. rewrite Hnil in Hmap. simpl in Hmap.
      split; [congruence|]. rewrite Hs.
      destruct (at_track_read_fields P drive num st)
        as (_&_&_&_&_&_&_&E8&_). exact E8.
Qed.

(** C10.  The division of lines 110-111 has no guard: a call entered with
    [gSectorsPerTrack] equal to 0 divides by zero, before anything else is
    done. *)
Theorem loadAtxSector_divides_by_zero (drive num : Z) (st : state) :
  gSectorsPerTrack st = 0 ->
  loadAtxSector P drive num st = (Fault DivisionByZero, st).
Proof.
  intros H. rewrite loadAtxSector_run, locate_run.
  rewrite H. reflexivity.
Qed.

(** With a nonzero number of sectors per track no call divides by zero. *)
Lemma loadAtxSector_division_defined (drive num : Z) (st : state) :
  gSectorsPerTrack st <> 0 ->
  fst (loadAtxSector P drive num st) <> Fault DivisionByZero.
Proof.
  intros Hspt. rewrite loadAtxSector_run.
  destruct (locate_cases P drive num st)
    as [(Hz & _)|[(_ & _ & E)|[(_ & _ & _ & E)|[(_ & _ & _ & _ & E)
       |(_ & _ & Hinb & _ & l & s1 & E & Hinv)]]]];
    [contradiction| | | |]; rewrite E; simpl; try discriminate.
  destruct Hinv as (_ & (_ & _ & Httn & Hwo) & _).
  rewrite <- Httn in Hinb.
  destruct (weak_data_run P drive l s1 Hinb ltac:(lia))
    as (l1 & s2 & Hwd & Hl1 & Hw1 & Hg1).
  assert (Hin1 : in_gTrackInfo drive (tgtTrackNumber l1 - 1) = true)
    by (destruct Hl1 as (-> & _); assumption).
  destruct (read_data_run P drive l1 s2 Hin1) as (n & s3 & Hrd & _).
  unfold call, deliver, bind. rewrite Hwd, Hrd.
  pose proof (randomize_no_division P
                (set_tgtSectorIndex (if hasError l1 then 0 else n) l1) s3)
    as Hno.
  destruct (randomize P _ s3) as [[[]| v | f |] s4]; simpl in *;
    try discriminate.
  - rewrite rotation_delay_run. discriminate.
  - congruence.
Qed.

(** C5.  When the extended records gave a weak offset K >= 0, the call
    returns with the sector buffer as the read of the data left it below K
    and with one fresh value of [rand() % 256] in each byte from K up to the
    number of bytes per sector; the calls of [rand] come after the read of
    the data, then the second head sample and the delay; this holds
    whether or not [hasError] forces the returned length to 0.  (The
    sector buffer has its 256 bytes, which the number of bytes per sector
    does not exceed.) *)
Theorem loadAtxSector_weak_bytes (drive num : Z) (st : state)
    (l l1 l2 : locals) (st0 st1 st2 : state) :
  locate P drive num st = (Val l, st0) ->
  weak_data P drive l st0 = (Val l1, st1) ->
  read_data P drive l1 st1 = (Val l2, st2) ->
  0 <= weakOffset l1 ->
  gBytesPerSector st <= 256 ->
  length (atari_sector_buffer st2) = 256%nat ->
  let K := weakOffset l1 in
  let bps := gBytesPerSector st in
  exists st',
    loadAtxSector P drive num st = (Val (tgtSectorIndex l2), st')
    /\ (hasError l = true -> tgtSectorIndex l2 = 0)
    /\ (forall j, 0 <= j < K ->
          atari_sector_buffer st' !! Z.to_nat j
          = atari_sector_buffer st2 !! Z.to_nat j)
    /\ (forall j, K <= j < bps ->
          atari_sector_buffer st' !! Z.to_nat j
          = Some (u08 (Z.rem (rand_value P (seed st2 + Z.to_nat (j - K))) 256)))
    /\ (tgtSectorOffset l <> 0 ->
        exists offset, trace st2 = trace st1 ++ [FileRead offset bps])
    /\ exists t2 n,
         trace st'
         = trace st2 ++ replicate (Z.to_nat (bps - K)) RandCall
           ++ HeadSample t2 :: replicate n (Delay MS_ONE).
Proof.
  intros Hloc Hwd Hrd HK Hbps Hlen K bps.
  destruct (locate_val drive num st l st0 Hloc)
    as (_ & _ & Hinb & _ & Hinv).
  destruct Hinv as (_ & (_ & _ & Httn & Hwo) & Hframe & _).
  rewrite <- Httn in Hinb.
  destruct (weak_data_run P drive l st0 Hinb ltac:(lia))
    as (l1' & s1' & Hwd' & Hl1 & Hw1 & Hg1).
  rewrite Hwd in Hwd'. injection Hwd' as <- <-.
  assert (Hin1 : in_gTrackInfo drive (tgtTrackNumber l1 - 1) = true)
    by (destruct Hl1 as (-> & _); assumption).
  destruct (read_data_run P drive l1 st1 Hin1)
    as (n & s2' & Hrd' & Hg2 & _ & Hdata).
  rewrite Hrd in Hrd'. injection Hrd' as -> <-.
  assert (Hbps1 : gBytesPerSector st1 = bps).
  { destruct Hg1 as (_ & -> & _).
    destruct Hframe as (-> & _).
    destruct (at_track_read_fields P drive num st) as (_ & -> & _).
    reflexivity. }
  assert (Hbps2 : gBytesPerSector st2 = bps).
  { destruct Hg2 as (_ & -> & _). simpl. exact Hbps1. }
  destruct (randomize_weak P
              (set_tgtSectorIndex (if hasError l1 then 0 else n) l1) st2)
    as (s3 & Hrand & Hweak).
  { simpl. fold K. lia. }
  { rewrite Hbps2. assumption. }
  simpl weakOffset in Hweak. fold K in Hweak. rewrite Hbps2 in Hweak.
  destruct Hweak
    as (_ & _ & _ & _ & _ & _ & _ & _ & _ & _ & _ & Htr & _ & Hlow & Hhigh).
  eexists. split.
  { rewrite loadAtxSector_run, Hloc. unfold call.
    rewrite (deliver_from P drive l l1 _ st0 st1 st2 s3 Hwd Hrd Hrand).
    reflexivity. }
  match goal with
  | |- context [emit_all ?evs ?s0] =>
      destruct (emit_all_fields evs s0)
        as (E1 & _ & _ & _ & _ & _ & _ & _ & _ & _ & _ & E12)
  end.
  rewrite E1, E12. cbn [atari_sector_buffer trace emit tick_clock].
  split.
  { intros HE. simpl.
    destruct Hl1 as (_&_&_&_&_&_&->&_). rewrite HE. reflexivity. }
  split; [assumption|].
  split.
  { intros j Hj. apply Hhigh; [assumption|lia]. }
  split.
  { intros Hoff.
    assert (Hoff1 : tgtSectorOffset l1 <> 0)
      by (destruct Hl1 as (_&_&_&_&_&->&_); assumption).
    destruct (Hdata Hoff1) as (_ & _ & Ht). rewrite Hbps1 in Ht.
    eexists. exact Ht. }
  eexists; eexists. rewrite Htr.
  replace (Z.max K bps - K) with (Z.max 0 (bps - K)) by lia.
  rewrite Z2Nat.inj_max. simpl Z.to_nat at 1. rewrite Nat.max_0_l.
  rewrite <- !app_assoc. reflexivity.
Qed.

(** The guard of line 117, on the track number as the 8-bit variable
    holds it. *)
Lemma loadAtxSector_track_above_40 (drive num : Z) (st : state) :
  gSectorsPerTrack st <> 0 ->
  track_of (gSectorsPerTrack st) num > 40 ->
  loadAtxSector P drive num st = (Val 0, set_out_status 247 st).
Proof.
  intros Hspt Hgt. rewrite loadAtxSector_run, locate_run.
  destruct (Z.eqb_spec (gSectorsPerTrack st) 0); [contradiction|].
  destruct (Z.gtb_spec (track_of (gSectorsPerTrack st) num) 40); [|lia].
  reflexivity.
Qed.

End Sector.

(** * Worked examples on the demo image *)


Section Examples.
Import Example Run.

Lemma locate_demo : locate demo 0 1 loaded = (Val l_scan, st_scan).
Proof. vm_compute. reflexivity. Qed.

Lemma weak_data_demo : weak_data demo 0 l_scan st_scan = (Val l_weak, st_weak).
Proof. vm_compute. reflexivity. Qed.

Lemma read_data_demo : read_data demo 0 l_weak st_weak = (Val l_read, st_read).
Proof. vm_compute. reflexivity. Qed.

(** C1 on the demo image: with the head at 50, sector 1 is listed at
    angles 20000 (index 0) and 100 (index 2); the scan ends with the
    occurrence at 100. *)
Lemma scan_chooses_least_forward_distance_witness :
  listed_occurrences demo 0 1 loaded
  = [(0, mkSectorHeader 1 64 20000 64); (2, mkSectorHeader 1 0 100 320)]
  /\ exists h,
       In (tgtSectorIndex l_scan, h) (listed_occurrences demo 0 1 loaded)
       /\ headPosition l_scan = first_sample demo loaded
       /\ tgtSectorOffset l_scan = u32 (data h)
       /\ gLastAngle st_scan = timev h
       /\ forall i' h', In (i', h') (listed_occurrences demo 0 1 loaded) ->
            forward_distance (timev h) (first_sample demo loaded)
            <= forward_distance (timev h') (first_sample demo loaded).
Proof.
  split; [vm_compute; reflexivity|].
  apply (scan_chooses_least_forward_distance demo 0 1 loaded l_scan st_scan).
  - vm_compute. reflexivity.
  - vm_compute. discriminate.
  - intros i h Hih. vm_compute in Hih.
    destruct Hih as [Heq|[Heq|[]]]; injection Heq as <- <-;
      vm_compute; split; congruence.
  - vm_compute. split; congruence.
Defined.

(** C3 fails on the demo image: track 1 has a header with no sectors; the
    request for sector 19 reads that header, returns 0 with status 0xF7,
    and has sampled the head position once, not twice: the second sample
    and the delay of lines 222-237 are not executed. *)
Lemma rejected_track_skips_timing :
  let r := loadAtxSector demo 0 19 loaded in
  fst (file_read demo 504 32 (atari_sector_buffer loaded)) = 32
  /\ sectorCount (track_header_read demo 0 19 loaded) = 0
  /\ fst r = Val 0
  /\ out_status (snd r) = 247
  /\ head_samples (trace (snd r)) = S (head_samples (trace loaded))
  /\ ~ In (Delay MS_ONE) (trace (snd r))
  /\ last (trace (snd r)) = Some (FileRead 504 32).
Proof.
  vm_compute. repeat split; try reflexivity.
  intros H. repeat (destruct H as [H|H]; [discriminate|]). exact H.
Qed.

(** C3 as amended, on the same request. *)
Lemma loadAtxSector_rejected_track_returns_at_once_witness :
  loadAtxSector demo 0 19 loaded = (Val 0, at_track_read demo 0 19 loaded)
  /\ head_samples (trace (snd (loadAtxSector demo 0 19 loaded)))
     = S (head_samples (trace loaded)).
Proof.
  destruct (loadAtxSector_rejected_track_returns_at_once demo 0 19 loaded)
    as (H1 & _ & _ & _ & _ & H6 & _).
  - vm_compute. discriminate.
  - vm_compute. discriminate.
  - vm_compute. reflexivity.
  - left. vm_compute. reflexivity.
  - split; [exact H1|exact H6].
Defined.

(** C4 on the demo image: the occurrence at index 0 carries status 0x40
    and is the running best until the one at index 2, of status 0, replaces
    it; the call returns 0. *)
Lemma loadAtxSector_error_flag_sticks_witness :
  hasError l_scan = true
  /\ exists st', loadAtxSector demo 0 1 loaded = (Val 0, st').
Proof.
  apply (loadAtxSector_error_flag_sticks demo 0 1 loaded l_scan st_scan
           first_occurrence).
  - vm_compute. reflexivity.
  - vm_compute. left. reflexivity.
  - reflexivity.
  - vm_compute. split; reflexivity.
  - vm_compute. discriminate.
Defined.

(** C5 on the demo image: the weak offset is 100; byte 99 is the byte of
    the image, byte 100 the first value of [rand() % 256]. *)
Lemma loadAtxSector_weak_bytes_witness :
  exists st',
    loadAtxSector demo 0 1 loaded = (Val 0, st')
    /\ atari_sector_buffer st' !! 99%nat = Some 51
    /\ atari_sector_buffer st' !! 100%nat = Some 44.
Proof.
  destruct (loadAtxSector_weak_bytes demo 0 1 loaded l_scan l_weak l_read
              st_scan st_weak st_read)
    as (st' & Hrun & _ & Hlow & Hhigh & _).
  - exact locate_demo.
  - exact weak_data_demo.
  - exact read_data_demo.
  - vm_compute. discriminate.
  - vm_compute. discriminate.
  - vm_compute. reflexivity.
  - exists st'. split; [exact Hrun|]. split.
    + change 99%nat with (Z.to_nat 99).
      rewrite (Hlow 99) by (vm_compute; split; congruence).
      vm_compute. reflexivity.
    + change 100%nat with (Z.to_nat 100).
      rewrite (Hhigh 100) by (vm_compute; split; congruence).
      vm_compute. reflexivity.
Defined.

(** C6 on the demo image: the occurrence chosen has status 0, the status
    reported is 0xFF. *)
Lemma loadAtxSector_status_is_complement_witness :
  out_status (snd (loadAtxSector demo 0 1 loaded)) = 255.
Proof.
  pose proof (loadAtxSector_status_is_complement demo 0 1 loaded 0) as H.
  rewrite locate_demo in H.
  destruct (H ltac:(vm_compute; reflexivity)) as [[Hnil _]|(h & Hin & Hs)].
  - vm_compute in Hnil. discriminate.
  - rewrite Hs. vm_compute in Hin.
    destruct Hin as [Heq|[Heq|[]]]; [discriminate Heq|].
    injection Heq as <-. vm_compute. reflexivity.
Defined.

(** C8 on a file of zeros. *)
Lemma loadAtxFile_rejects_unsupported_witness :
  fst (loadAtxFile (platform (replicate 48 0) []) 8 0 loaded) = Val 0
  /\ gSectorsPerTrack
       (snd (loadAtxFile (platform (replicate 48 0) []) 8 0 loaded)) = 18.
Proof.
  destruct (loadAtxFile_rejects_unsupported (platform (replicate 48 0) [])
              8 0 loaded) as (H1 & _ & H3 & _).
  - vm_compute. intros (H & _). discriminate.
  - split; [exact H1|]. rewrite H3. vm_compute. reflexivity.
Defined.

(** C9 on the demo image (density code 0, tracks 0 and 1). *)
Lemma loadAtxFile_geometry_when_tracks_end_witness :
  fst (loadAtxFile demo 8 0 power_on) = Val 128
  /\ gSectorsPerTrack loaded = 18 /\ gBytesPerSector loaded = 128.
Proof.
  apply (loadAtxFile_geometry_when_tracks_end demo 8 0 power_on
           [(0, 48); (1, 504)]).
  - vm_compute. repeat split; reflexivity.
  - vm_compute. reflexivity.
  - vm_compute. reflexivity.
Defined.

(** C10 at power-on: no image was loaded, the request divides by zero. *)
Lemma loadAtxSector_divides_by_zero_witness :
  loadAtxSector demo 0 1 power_on = (Fault DivisionByZero, power_on).
Proof.
  apply (loadAtxSector_divides_by_zero demo 0 1 power_on). reflexivity.
Defined.

(** C2: a track header declaring track 40 makes line 86 store at
    [gTrackInfo[0][40]], past the 40 entries of the row. *)
Theorem loadAtxFile_track_40_out_of_bounds :
  fst (loadAtxFile (platform track40_image []) 8 0 power_on)
  = Fault (TrackInfoOutOfBounds 0 40).
Proof. vm_compute. reflexivity. Qed.

(** C7: with 18 sectors per track, sector 4610 lies on track 257; the
    8-bit track variable holds 1, the guard of line 117 lets the call
    through, and the call reads and returns sector 2 of track 1. *)
Theorem loadAtxSector_track_257_is_read :
  gSectorsPerTrack loaded = 18
  /\ (4610 - 1) / 18 + 1 = 257
  /\ track_of 18 4610 = 1
  /\ loadAtxSector demo 0 4610 loaded = loadAtxSector demo 0 2 loaded
  /\ fst (loadAtxSector demo 0 4610 loaded) = Val 128
  /\ out_sectorSize (snd (loadAtxSector demo 0 4610 loaded)) = 128
  /\ In (FileRead 240 128) (trace (snd (loadAtxSector demo 0 4610 loaded))).
Proof.
  vm_compute. repeat split; try reflexivity.
  do 13 right. left. reflexivity.
Qed.

End Examples.

(** * Further properties *)

(** ** What a statement leaves alone *)

Section Frames.

Context {B : Type} (f : state -> B).

Lemma keeps_ret {A : Type} (a : A) : keeps f (ret a).
Proof. intros s. reflexivity. Qed.

Lemma keeps_bind {A C : Type} (m : M A) (k : A -> M C) :
  keeps f m -> (forall a, keeps f (k a)) -> keeps f (bind m k).
Proof.
  intros Hm Hk s. unfold bind. specialize (Hm s).
  destruct (m s) as [[a| v | e |] s1]; simpl in *; try assumption.
  rewrite (Hk a s1). assumption.
Qed.

Lemma keeps_for_loop {A : Type} (body : Z -> A -> M A) :
  (forall i a, keeps f (body i a)) ->
  forall n i a, keeps f (for_loop n i body a).
Proof.
  intros Hbody. induction n as [|n IH]; intros i a; simpl.
  - apply keeps_ret.
  - apply keeps_bind; [apply Hbody|]. intros a'. apply IH.
Qed.

Lemma keeps_repeat (m : M unit) :
  keeps f m -> forall n, keeps f (repeat_M n m).
Proof.
  intros Hm. induction n as [|n IH]; simpl.
  - apply keeps_ret.
  - apply keeps_bind; [assumption|]. intros _. assumption.
Qed.

Lemma keeps_call (body : M Z) : keeps f body -> keeps f (call body).
Proof.
  intros Hb s. unfold call. specialize (Hb s).
  destruct (body s) as [[a| v | e |] s1]; simpl in *; assumption.
Qed.

End Frames.

Ltac keeps_leaf :=
  intros ?s; unfold_M; cbn;
  repeat match goal with
    | |- context [file_read ?P ?o ?n ?b] => destruct (file_read P o n b)
    | |- context [if ?c then _ else _] => destruct c
    end;
  reflexivity.

Ltac keeps_step :=
  match goal with
  | |- keeps _ (bind _ _) => apply keeps_bind; [|intros ?]
  | |- keeps _ (for_loop _ _ _ _) => apply keeps_for_loop; intros ? ?
  | |- keeps _ (repeat_M _ _) => apply keeps_repeat
  | |- keeps _ (call _) => apply keeps_call
  | |- keeps _ (if ?c then _ else _) => destruct c
  | |- keeps _ _ => solve [keeps_leaf]
  end.

Section DeliverFrame.

Variable P : Platform.

Lemma ext_step_beyond (i : Z) (l : locals) :
  keeps beyond_deliver (ext_step P i l).
Proof. unfold ext_step. repeat keeps_step. Qed.

Lemma randomize_step_beyond (i : Z) (u : unit) :
  keeps beyond_deliver (randomize_step P i u).
Proof. unfold randomize_step. repeat keeps_step. Qed.

(** Lines 193-240 leave the globals other than the sector buffer alone,
    however they end. *)
Lemma deliver_beyond (drive : Z) (l : locals) :
  keeps beyond_deliver (deliver P drive l).
Proof.
  unfold deliver, weak_data, read_data, randomize, rotation_delay.
  repeat first [apply ext_step_beyond | apply randomize_step_beyond
               | keeps_step].
Qed.

End DeliverFrame.

(** ** The scan, further *)

Section ScanMore.

Variable P : Platform.

Lemma scan_step_ext (i : Z) (l : locals) (s : state) :
  ext_count_inv i l s ->
  exists l' s',
    scan_step P i l s = (Val l', s') /\ ext_count_inv (i + 1) l' s'.
Proof.
  intros (Hr & Hex). unfold scan_step. unfold_M.
  destruct (file_read P (currentFileOffset l) (sizeof_atxSectorHeader P)
              (atari_sector_buffer s)) as [n b].
  destruct (n =? 0).
  { eexists; eexists; split; [reflexivity|]. split; assumption. }
  simpl. set (h := as_atxSectorHeader P b).
  destruct (number h =? tgtSectorNumber l).
  2:{ eexists; eexists; split; [reflexivity|]. split; assumption. }
  destruct (replaces_best _ (pTT l)).
  - eexists; eexists; split; [reflexivity|].
    unfold ext_count_inv; simpl.
    destruct (Z.eqb_spec (Z.land (status h) 64) 0) as [Hz|Hnz].
    + split; [assumption|]. intros Hne.
      rewrite existsb_app, (Hex Hne). reflexivity.
    + split.
      * unfold u08. apply Z.mod_pos_bound. lia.
      * intros _. rewrite existsb_app. simpl.
        destruct (Z.eqb_spec (Z.land (status h) 64) 0); [contradiction|].
        simpl. apply orb_true_r.
  - eexists; eexists; split; [reflexivity|].
    unfold ext_count_inv; simpl. split; [assumption|]. intros Hne.
    rewrite existsb_app, (Hex Hne). reflexivity.
Qed.

Lemma scan_sector_list_more (ttn tsn hp off cnt hs : Z) (s : state)
    (l : locals) (s' : state) :
  scan_sector_list P ttn tsn hp off cnt hs s = (Val l, s') ->
  ext_count_inv cnt l s' /\ last_angle_returned s' = gLastAngle s'.
Proof.
  unfold scan_sector_list. unfold_M.
  destruct (file_read P (u32 (off + hs)) (sizeof_atxSectorListHeader P)
              (atari_sector_buffer s)) as [n b].
  cbv beta iota.
  match goal with
  | |- context [for_loop ?k 0 ?body ?l0 ?se] =>
      destruct (for_loop_invariant ext_count_inv body (Z.of_nat k)
                  (fun j x y _ HI => scan_step_ext j x y HI)
                  k 0 l0 se) as (l1 & s1 & Hloop & Hinv)
  end.
  - lia.
  - unfold ext_count_inv. simpl. split; [lia|]. intros H. contradiction.
  - rewrite Hloop. intros H. injection H as <- <-.
    split; [|reflexivity].
    destruct Hinv as (H1 & H2). split; assumption.
Qed.

Lemma locate_more (drive num : Z) (s : state) (l : locals) (s1 : state) :
  locate P drive num s = (Val l, s1) ->
  ext_count_inv 0 l s1 /\ last_angle_returned s1 = gLastAngle s1.
Proof.
  rewrite locate_run.
  destruct (gSectorsPerTrack s =? 0); [discriminate|].
  destruct (_ >? 40); [discriminate|].
  destruct (in_gTrackInfo drive _); [|discriminate].
  destruct (track_rejected P drive num s); [discriminate|].
  intros H. apply scan_sector_list_more in H as [(H1 & H2) H3].
  split; [split; assumption|assumption].
Qed.



End ScanMore.

(** ** The sector reader: not found, found *)

Section Outcomes.

Variable P : Platform.

Lemma deliver_to (drive : Z) (l l1 l2 : locals) (s s1 s2 s3 : state) :
  weak_data P drive l s = (Val l1, s1) ->
  read_data P drive l1 s1 = (Val l2, s2) ->
  randomize P l2 s2 = (Val tt, s3) ->
  deliver P drive l s = (Ret (tgtSectorIndex l2), after_delay P l2 s3).
Proof. apply deliver_from. Qed.

Lemma after_delay_fields (l : locals) (s : state) :
  atari_sector_buffer (after_delay P l s) = atari_sector_buffer s
  /\ beyond_deliver (after_delay P l s) = beyond_deliver s
  /\ out_sectorSize (after_delay P l s) = out_sectorSize s
  /\ clock (after_delay P l s) = S (clock s)
  /\ seed (after_delay P l s) = seed s
  /\ trace (after_delay P l s)
     = trace s
       ++ HeadSample (first_sample P s)
          :: replicate
               (delay_iterations P (gLastAngle s) (headPosition l)
                  (first_sample P s))
               (Delay MS_ONE).
Proof.
  unfold after_delay, first_sample.
  match goal with
  | |- context [emit_all ?evs ?st] =>
      destruct (emit_all_fields evs st)
        as (E1&E2&E3&E4&E5&E6&E7&E8&E9&E10&E11&E12)
  end.
  unfold beyond_deliver.
  rewrite E1, E2, E3, E4, E5, E6, E7, E8, E9, E10, E11, E12. simpl.
  rewrite <- app_assoc. repeat split; reflexivity.
Qed.

(** X2.  Sector not found: when the scan meets no header with the
    requested number, the call returns 0 with status 0xF7 and the sector
    size set; no data is read and no byte randomized; [gLastAngle] keeps
    the angle of an earlier request, and the second head sample and the
    delay loop are executed with that stale angle. *)
Theorem loadAtxSector_not_found (drive num : Z) (st : state) (l : locals)
    (st1 : state) :
  locate P drive num st = (Val l, st1) ->
  listed_occurrences P drive num st = [] ->
  let st' := snd (loadAtxSector P drive num st) in
  fst (loadAtxSector P drive num st) = Val 0
  /\ out_status st' = 247
  /\ out_sectorSize st' = gBytesPerSector st
  /\ gLastAngle st' = gLastAngle st
  /\ atari_sector_buffer st' = atari_sector_buffer st1
  /\ seed st' = seed st
  /\ clock st' = S (S (clock st))
  /\ trace st'
     = trace st1
       ++ HeadSample (first_sample P st1)
          :: replicate
               (delay_iterations P (gLastAngle st) (first_sample P st)
                  (first_sample P st1))
               (Delay MS_ONE).
Proof.
  intros Hloc Hnil st'.
  pose proof (locate_listed P drive num st l st1 Hloc) as Hmap.
  rewrite Hnil in Hmap. apply map_eq_nil in Hmap.
  destruct (locate_val P drive num st l st1 Hloc)
    as (_ & _ & _ & _ & Hinv).
  destruct Hinv as (_ & (Hhp & _ & _ & Hwo) & Hframe & Hch & Herr & _).
  rewrite Hmap in Hch, Herr. cbn [final_choice existsb] in Hch, Herr.
  destruct Hch as (_ & _ & Hoff & Hext & Hst & Hang).
  destruct Hframe as (Fbps & _ & _ & Fsz & Fclock & Fseed & _).
  destruct (at_track_read_fields P drive num st)
    as (_ & A2 & _ & _ & A5 & _ & A7 & A8 & A9 & A10 & _).
  assert (Hwd : weak_data P drive l st1 = (Val l, st1)).
  { unfold weak_data. rewrite Hext. reflexivity. }
  assert (Hrd : read_data P drive l st1
                = (Val (set_tgtSectorIndex 0 l),
                   set_out_sectorSize (gBytesPerSector st1) st1)).
  { unfold read_data. unfold_M. rewrite Hoff, Herr. reflexivity. }
  assert (Hrand : randomize P (set_tgtSectorIndex 0 l)
                    (set_out_sectorSize (gBytesPerSector st1) st1)
                  = (Val tt, set_out_sectorSize (gBytesPerSector st1) st1)).
  { apply randomize_none. simpl. lia. }
  assert (Hrun : loadAtxSector P drive num st
                 = (Val 0,
                    after_delay P (set_tgtSectorIndex 0 l)
                      (set_out_sectorSize (gBytesPerSector st1) st1))).
  { rewrite loadAtxSector_run, Hloc. unfold call.
    rewrite (deliver_to drive l l _ st1 st1 _ _ Hwd Hrd Hrand).
    reflexivity. }
  subst st'. rewrite Hrun. cbn [fst snd].
  destruct (after_delay_fields (set_tgtSectorIndex 0 l)
              (set_out_sectorSize (gBytesPerSector st1) st1))
    as (G1 & G2 & G3 & G4 & G5 & G6).
  rewrite G1, G3, G4, G5, G6.
  assert (G25 : gLastAngle
                  (after_delay P (set_tgtSectorIndex 0 l)
                     (set_out_sectorSize (gBytesPerSector st1) st1))
                = gLastAngle st1)
    by (apply (f_equal (fun t => snd (fst (fst t)))) in G2; exact G2).
  assert (G27 : out_status
                  (after_delay P (set_tgtSectorIndex 0 l)
                     (set_out_sectorSize (gBytesPerSector st1) st1))
                = out_status st1)
    by (apply (f_equal snd) in G2; exact G2).
  rewrite G25, G27. unfold first_sample. simpl.
  assert (HA : gLastAngle st1 = gLastAngle st) by congruence.
  split; [reflexivity|].
  split; [congruence|].
  split; [congruence|].
  split; [congruence|].
  split; [reflexivity|].
  split; [congruence|].
  split; [congruence|].
  rewrite Hhp, HA. reflexivity.
Qed.

(** X3.  A clean sector: when every listed occurrence of the requested
    sector has status 0 and the chosen one a nonzero data offset, the call
    reads bytes-per-sector bytes at track offset + data offset and returns
    what the reader returned (as a u16), with the sector buffer as that
    read left it, status 0xFF, the sector size set, and no call of
    [rand]. *)
Theorem loadAtxSector_reads_clean_sector (drive num : Z) (st : state)
    (l : locals) (st1 : state) :
  locate P drive num st = (Val l, st1) ->
  listed_occurrences P drive num st <> [] ->
  (forall i h, In (i, h) (listed_occurrences P drive num st) ->
     status h = 0) ->
  tgtSectorOffset l <> 0 ->
  let bps := gBytesPerSector st in
  let offset :=
    u32 (gTrackInfo_offset drive
           (track_of (gSectorsPerTrack st) num - 1) st
         + tgtSectorOffset l) in
  let r := file_read P offset bps (atari_sector_buffer st1) in
  let st' := snd (loadAtxSector P drive num st) in
  (exists h,
     In (tgtSectorIndex l, h) (listed_occurrences P drive num st)
     /\ tgtSectorOffset l = u32 (data h))
  /\ fst (loadAtxSector P drive num st) = Val (u16 (fst r))
  /\ atari_sector_buffer st' = snd r
  /\ out_status st' = 255
  /\ out_sectorSize st' = bps
  /\ seed st' = seed st
  /\ exists t2 n,
       trace st'
       = trace st1
         ++ FileRead offset bps :: HeadSample t2 :: replicate n (Delay MS_ONE).
Proof.
  intros Hloc Hne Hclean Hoff bps offset r st'.
  pose proof (locate_listed P drive num st l st1 Hloc) as Hmap.
  destruct (seen_listed P drive num st l st1 Hloc) as [Hin _].
  destruct (locate_more P drive num st l st1 Hloc) as ((Hr & Hex) & _).
  destruct (locate_val P drive num st l st1 Hloc)
    as (_ & _ & Hinb & _ & Hinv).
  destruct Hinv as (_ & (Hhp & _ & Httn & Hwo) & Hframe & Hch & Herr & _).
  destruct Hframe as (Fbps & _ & Ftab & Fsz & Fclock & Fseed & _).
  destruct (at_track_read_fields P drive num st)
    as (_ & A2 & _ & A4 & A5 & _ & A7 & A8 & A9 & A10 & _).
  assert (Hstat : forall o, In o (seen l) -> status (occ_header o) = 0).
  { intros o Ho. apply (Hclean (occ_index o)). apply Hin. assumption. }
  assert (HE : hasError l = false).
  { rewrite Herr. apply not_true_is_false. intros Hx.
    apply existsb_exists in Hx as (o & Ho & Hb).
    rewrite (Hstat o Ho) in Hb. rewrite andb_false_r in Hb. discriminate. }
  assert (Hext : extendedDataRecords l = 0).
  { destruct (Z.eq_dec (extendedDataRecords l) 0) as [E|E]; [assumption|].
    apply Hex in E. apply existsb_exists in E as (o & Ho & Hb).
    rewrite (Hstat o Ho) in Hb. rewrite andb_false_r in Hb. discriminate. }
  destruct (final_choice (seen l)) as [o|] eqn:Hfc.
  2:{ destruct Hch as (Hnil & _). rewrite Hnil in Hmap. simpl in Hmap.
      congruence. }
  destruct Hch as (Hidx & _ & _ & Hst & Hdata & Ho).
  assert (Hwd : weak_data P drive l st1 = (Val l, st1)).
  { unfold weak_data. rewrite Hext. reflexivity. }
  assert (Hofs : gTrackInfo_offset drive (tgtTrackNumber l - 1) st1
                 = gTrackInfo_offset drive
                     (track_of (gSectorsPerTrack st) num - 1) st).
  { unfold gTrackInfo_offset. rewrite Httn, Ftab, A4. reflexivity. }
  assert (Hinl : in_gTrackInfo drive (tgtTrackNumber l - 1) = true)
    by (rewrite Httn; assumption).
  destruct (read_data_run P drive l st1 Hinl)
    as (n & s2 & Hrd & Hg2 & _ & Hread).
  destruct (Hread Hoff) as (Hn & Hbuf & Htr). clear Hread.
  rewrite Hofs, Fbps, A2 in Hn, Hbuf, Htr.
  fold bps in Hn, Hbuf, Htr. fold offset in Hn, Hbuf, Htr.
  fold r in Hn, Hbuf.
  rewrite HE in Hrd.
  assert (Hrand : randomize P (set_tgtSectorIndex n l) s2 = (Val tt, s2)).
  { apply randomize_none. simpl. lia. }
  assert (Hrun : loadAtxSector P drive num st
                 = (Val n, after_delay P (set_tgtSectorIndex n l) s2)).
  { rewrite loadAtxSector_run, Hloc. unfold call.
    rewrite (deliver_to drive l l _ st1 st1 _ _ Hwd Hrd Hrand).
    reflexivity. }
  split.
  { exists (occ_header o). rewrite <- Hidx.
    split; [apply Hin; assumption|assumption]. }
  subst st'. rewrite Hrun. cbn [fst snd].
  destruct (after_delay_fields (set_tgtSectorIndex n l) s2)
    as (G1 & G2 & G3 & G4 & G5 & G6).
  assert (G27 : out_status (after_delay P (set_tgtSectorIndex n l) s2)
                = out_status s2)
    by (apply (f_equal snd) in G2; exact G2).
  rewrite G1, G3, G5, G6, G27.
  destruct Hg2 as (_ & _ & _ & _ & _ & _ & S7 & S8 & _ & S10).
  cbn [out_sectorSize out_status seed set_out_sectorSize] in S7, S8, S10.
  split; [congruence|].
  split; [assumption|].
  split; [rewrite S8, Hst, (Hstat o Ho); reflexivity|].
  split; [rewrite S7, Fbps, A2; reflexivity|].
  split; [congruence|].
  eexists; eexists. rewrite Htr, <- app_assoc. reflexivity.
Qed.

End Outcomes.

(** ** What a sector request leaves alone *)

Section SectorFrame.

Variable P : Platform.

Lemma after_sample_fields (num : Z) (s : state) :
  let s3 := after_sample P num s in
  atari_sector_buffer s3 = atari_sector_buffer s
  /\ last_angle_returned s3 = last_angle_returned s
  /\ tables s3 = tables s
  /\ gLastAngle s3 = gLastAngle s
  /\ gCurrentHeadTrack s3 = track_of (gSectorsPerTrack s) num.
Proof.
  intros s3. subst s3. unfold after_sample, tables.
  match goal with
  | |- context [emit_all ?evs ?st] =>
      destruct (emit_all_fields evs st)
        as (E1&E2&E3&E4&E5&E6&E7&E8&E9&E10&E11&E12)
  end.
  cbn [atari_sector_buffer last_angle_returned gBytesPerSector
       gSectorsPerTrack gTrackInfo gLastAngle gCurrentHeadTrack emit
       tick_clock set_gCurrentHeadTrack].
  rewrite E1, E2, E3, E4, E5, E6. repeat split; reflexivity.
Qed.

(** The end state of a call, by the way it took through lines 109-191. *)
Lemma loadAtxSector_ways (drive num : Z) (st : state) :
  let spt := gSectorsPerTrack st in
  let ttn := track_of spt num in
  let st' := snd (loadAtxSector P drive num st) in
  (spt = 0 /\ st' = st)
  \/ (spt <> 0 /\ ttn > 40 /\ st' = set_out_status 247 st)
  \/ (spt <> 0 /\ ttn <= 40 /\ st' = after_sample P num st)
  \/ (spt <> 0 /\ ttn <= 40 /\ st' = at_track_read P drive num st)
  \/ (spt <> 0 /\ ttn <= 40
      /\ exists l s1,
           locate P drive num st = (Val l, s1)
           /\ scan_inv (first_sample P st) (sector_of spt num) ttn
                (at_track_read P drive num st)
                (u16 (sectorCount (track_header_read P drive num st))) l s1
           /\ beyond_deliver st' = beyond_deliver s1).
Proof.
  intros spt ttn st'. subst st'. rewrite loadAtxSector_run.
  destruct (locate_cases P drive num st)
    as [(H0 & E)|[(H0 & H1 & E)|[(H0 & H1 & _ & E)|[(H0 & H1 & _ & _ & E)
       |(H0 & H1 & _ & _ & l & s1 & E & Hinv)]]]]; rewrite E; cbn [snd].
  - left. split; [assumption|reflexivity].
  - right; left. repeat split; assumption.
  - right; right; left. repeat split; assumption.
  - right; right; right; left. repeat split; assumption.
  - right; right; right; right.
    split; [assumption|]. split; [assumption|].
    exists l, s1. split; [reflexivity|]. split; [assumption|].
    apply (keeps_call beyond_deliver _ (deliver_beyond P drive l)).
Qed.

(** X4.  A sector request never changes the geometry or the track table,
    however it ends. *)
Theorem loadAtxSector_keeps_tables (drive num : Z) (st : state) :
  tables (snd (loadAtxSector P drive num st)) = tables st.
Proof.
  destruct (at_track_read_fields P drive num st)
    as (_ & A2 & A3 & A4 & _).
  assert (A : tables (at_track_read P drive num st) = tables st)
    by (unfold tables; rewrite A2, A3, A4; reflexivity).
  destruct (loadAtxSector_ways drive num st)
    as [(_ & E)|[(_ & _ & E)|[(_ & _ & E)|[(_ & _ & E)
       |(_ & _ & l & s1 & _ & Hinv & Hb)]]]].
  - rewrite E. reflexivity.
  - rewrite E. reflexivity.
  - rewrite E. apply (after_sample_fields num st).
  - rewrite E. exact A.
  - destruct Hinv as (_ & _ & (F1 & F2 & F3 & _) & _).
    unfold beyond_deliver in Hb. unfold tables in *.
    injection Hb as _ H2 H3 H4 _ _ _.
    rewrite H2, H3, H4, F1, F2, F3. assumption.
Qed.

(** X5.  The head track after a request: the call leaves it alone when it
    divides by zero or is refused at line 117, and sets it to the track
    requested otherwise, whether the lookup succeeds or not; a head track
    between 0 and 40 stays between 0 and 40. *)
Theorem loadAtxSector_head_track (drive num : Z) (st : state) :
  0 <= gCurrentHeadTrack st <= 40 ->
  let spt := gSectorsPerTrack st in
  let st' := snd (loadAtxSector P drive num st) in
  gCurrentHeadTrack st'
  = (if (spt =? 0) || (track_of spt num >? 40) then gCurrentHeadTrack st
     else track_of spt num)
  /\ 0 <= gCurrentHeadTrack st' <= 40.
Proof.
  intros Hcur spt st'.
  assert (Hnn : 0 <= track_of spt num)
    by (unfold track_of, u08; apply Z.mod_pos_bound; lia).
  assert (Heq : gCurrentHeadTrack st'
                = (if (spt =? 0) || (track_of spt num >? 40)
                   then gCurrentHeadTrack st else track_of spt num)).
  { subst st'.
    destruct (at_track_read_fields P drive num st)
      as (_ & _ & _ & _ & _ & A6 & _).
    destruct (loadAtxSector_ways drive num st)
      as [(H0 & E)|[(H0 & H1 & E)|[(H0 & H1 & E)|[(H0 & H1 & E)
         |(H0 & H1 & l & s1 & _ & Hinv & Hb)]]]];
      fold spt in H0; try fold spt in H1.
    - rewrite E, H0. reflexivity.
    - rewrite E.
      destruct (Z.eqb_spec spt 0); [contradiction|].
      destruct (Z.gtb_spec (track_of spt num) 40); [reflexivity|lia].
    - rewrite E.
      destruct (Z.eqb_spec spt 0); [contradiction|].
      destruct (Z.gtb_spec (track_of spt num) 40); [lia|].
      apply (after_sample_fields num st).
    - rewrite E.
      destruct (Z.eqb_spec spt 0); [contradiction|].
      destruct (Z.gtb_spec (track_of spt num) 40); [lia|].
      exact A6.
    - destruct (Z.eqb_spec spt 0); [contradiction|].
      destruct (Z.gtb_spec (track_of spt num) 40); [lia|].
      destruct Hinv as (_ & _ & (_ & _ & _ & _ & _ & _ & F7) & _).
      apply (f_equal (fun t => snd (fst t))) in Hb.
      cbn [beyond_deliver fst snd] in Hb.
      rewrite Hb, F7. exact A6. }
  split; [exact Heq|]. rewrite Heq.
  destruct (Z.eqb_spec spt 0); simpl; [assumption|].
  destruct (Z.gtb_spec (track_of spt num) 40); lia.
Qed.

(** X6.  The angle shown on the screen: after a call that went through
    the scan, [last_angle_returned] is [gLastAngle], however the call ends;
    a call that ends before the scan leaves it alone. *)
Theorem loadAtxSector_last_angle_returned (drive num : Z) (st : state) :
  let st' := snd (loadAtxSector P drive num st) in
  match locate P drive num st with
  | (Val _, _) => last_angle_returned st' = gLastAngle st'
  | (_, _) => last_angle_returned st' = last_angle_returned st
  end.
Proof.
  intros st'. subst st'.
  destruct (at_track_read_fields P drive num st) as (A1 & _).
  pose proof (loadAtxSector_ways drive num st) as Hways.
  destruct (locate_cases P drive num st)
    as [(H0 & E)|[(H0 & H1 & E)|[(H0 & H1 & _ & E)|[(H0 & H1 & _ & _ & E)
       |(H0 & H1 & _ & _ & l & s1 & E & _)]]]]; rewrite E;
    rewrite loadAtxSector_run in *; rewrite E in *; cbn [snd] in *;
    try reflexivity.
  - apply after_sample_fields.
  - exact A1.
  - destruct (locate_more P drive num st l s1 E) as (_ & Hla).
    pose proof (keeps_call beyond_deliver _ (deliver_beyond P drive l) s1)
      as Hb.
    unfold beyond_deliver in Hb. injection Hb as -> _ _ _ -> _ _.
    exact Hla.
Qed.

End SectorFrame.

(** ** Track and sector numbers, the seek *)

Lemma s08_small (x : Z) : -128 <= x < 128 -> s08 x = x.
Proof.
  intros H. unfold s08.
  destruct (Z_lt_le_dec x 0) as [Hneg|Hpos].
  - replace (x mod 256) with (x + 256).
    + destruct (Z.ltb_spec (x + 256) 128); lia.
    + apply Z.mod_unique with (q := -1); lia.
  - rewrite Z.mod_small by lia.
    destruct (Z.ltb_spec x 128); lia.
Qed.

(** Within 255 tracks nothing is truncated. *)
Lemma track_of_exact (spt num : Z) :
  0 < spt < 256 -> 1 <= num <= 256 * spt ->
  track_of spt num = ((num - 1) / spt + 1) mod 256
  /\ sector_of spt num = (num - 1) mod spt + 1
  /\ 0 <= (num - 1) / spt <= 255.
Proof.
  intros Hspt Hnum. unfold track_of, sector_of, u08, u16.
  assert (Hq : 0 <= (num - 1) / spt <= 255).
  { split; [apply Z.div_pos; lia|].
    apply Z.lt_succ_r. apply Z.div_lt_upper_bound; lia. }
  pose proof (Z.mod_pos_bound (num - 1) spt ltac:(lia)) as Hm.
  rewrite (Z.mod_small (num - 1) 65536) by nia.
  rewrite (Z.mod_small ((num - 1) / spt + 1) 65536) by lia.
  rewrite (Z.mod_small ((num - 1) mod spt + 1) 65536) by lia.
  rewrite (Z.mod_small ((num - 1) mod spt + 1) 256) by lia.
  repeat split; lia.
Qed.

Section Requests.

Variable P : Platform.

(** X7.  Lines 110-119 on the sectors of a 40-track disk: for a sector
    number from 1 to 40 times the sectors per track, the track is
    (num-1)/spt + 1, between 1 and 40, the sector within the track is
    (num-1) mod spt + 1, between 1 and spt; the two give the sector number
    back; the status is preset to 0xF7 and the guard of line 117 lets the
    call through. *)
Theorem target_decodes_sector_number (num : Z) (s : state) :
  0 < gSectorsPerTrack s < 256 ->
  1 <= num <= 40 * gSectorsPerTrack s ->
  let spt := gSectorsPerTrack s in
  let t := (num - 1) / spt + 1 in
  let k := (num - 1) mod spt + 1 in
  target num s = (Val (t, k), set_out_status 247 s)
  /\ 1 <= t <= 40 /\ 1 <= k <= spt
  /\ (t - 1) * spt + k = num.
Proof.
  intros Hspt Hnum spt t k. subst spt t k.
  destruct (track_of_exact (gSectorsPerTrack s) num Hspt ltac:(lia))
    as (Ht & Hk & Hq).
  assert (Hq40 : (num - 1) / gSectorsPerTrack s < 40)
    by (apply Z.div_lt_upper_bound; lia).
  pose proof (Z.mod_pos_bound (num - 1) (gSectorsPerTrack s) ltac:(lia)).
  pose proof (Z.div_mod (num - 1) (gSectorsPerTrack s) ltac:(lia)).
  rewrite Z.mod_small in Ht by lia.
  rewrite target_run, Ht, Hk.
  destruct (Z.eqb_spec (gSectorsPerTrack s) 0); [lia|].
  destruct (Z.gtb_spec ((num - 1) / gSectorsPerTrack s + 1) 40); [lia|].
  repeat split; try lia; try reflexivity.
Qed.

(** X8.  The guard of line 117 where it works: a sector number beyond
    track 40 and up to track 255 is refused at once, and so is sector
    number 0 for both geometries; the call returns 0 and changes nothing
    but the status, set to 0xF7: no delay, no sample, no read. *)
Theorem loadAtxSector_refuses_tracks_41_to_255 (drive num : Z) (st : state) :
  0 < gSectorsPerTrack st < 256 ->
  40 * gSectorsPerTrack st < num <= 255 * gSectorsPerTrack st
  \/ (num = 0 /\ (gSectorsPerTrack st = 18 \/ gSectorsPerTrack st = 26)) ->
  loadAtxSector P drive num st = (Val 0, set_out_status 247 st).
Proof.
  intros Hspt Hnum.
  apply loadAtxSector_track_above_40; [lia|].
  destruct Hnum as [Hnum|(-> & [->| ->])]; [|vm_compute; reflexivity..].
  destruct (track_of_exact (gSectorsPerTrack st) num Hspt ltac:(lia))
    as (Ht & _ & Hq).
  assert (Hq40 : 40 <= (num - 1) / gSectorsPerTrack st)
    by (apply Z.div_le_lower_bound; lia).
  assert (Hq254 : (num - 1) / gSectorsPerTrack st < 255)
    by (apply Z.div_lt_upper_bound; lia).
  rewrite Ht, Z.mod_small by lia. lia.
Qed.

(** X9.  Track 256: for a sector number on track 256 the 8-bit track
    variable is 0, the guard of line 117 lets the call through, the delays
    and the head sample are done, and line 144 indexes the track table at
    -1. *)
Theorem loadAtxSector_track_256_indexes_below_table (drive num : Z)
    (st : state) :
  0 < gSectorsPerTrack st < 256 ->
  255 * gSectorsPerTrack st < num <= 256 * gSectorsPerTrack st ->
  (num - 1) / gSectorsPerTrack st + 1 = 256
  /\ loadAtxSector P drive num st
     = (Fault (TrackInfoOutOfBounds drive (-1)), after_sample P num st)
  /\ gCurrentHeadTrack (after_sample P num st) = 0.
Proof.
  intros Hspt Hnum.
  destruct (track_of_exact (gSectorsPerTrack st) num Hspt ltac:(lia))
    as (Ht & _ & Hq).
  assert (Hq255 : 255 <= (num - 1) / gSectorsPerTrack st)
    by (apply Z.div_le_lower_bound; lia).
  assert (Hq' : (num - 1) / gSectorsPerTrack st = 255) by lia.
  rewrite Hq' in Ht. change ((255 + 1) mod 256) with 0 in Ht.
  split; [lia|].
  split.
  - rewrite loadAtxSector_run, locate_run, Ht.
    destruct (Z.eqb_spec (gSectorsPerTrack st) 0); [lia|].
    assert (Hout : in_gTrackInfo drive (0 - 1) = false)
      by (unfold in_gTrackInfo; destruct (0 <=? drive), (drive <? 2);
          reflexivity).
    rewrite Hout. reflexivity.
  - destruct (after_sample_fields P num st) as (_ & _ & _ & _ & E).
    rewrite E. exact Ht.
Qed.

(** X10.  The seek of lines 121-138 between tracks at most 127 apart: the
    request delay, then one track-step delay per track of distance and the
    head-settle delay when the head moves, nothing when it stays; the head
    track is the target afterwards. *)
Theorem seek_steps_by_distance (tgt : Z) (s : state) :
  -127 <= tgt - gCurrentHeadTrack s <= 127 ->
  let s' := snd (seek tgt s) in
  fst (seek tgt s) = Val tt
  /\ gCurrentHeadTrack s' = tgt
  /\ trace s'
     = trace s
       ++ Delay MS_DRIVE_REQUEST_DELAY
          :: (if gCurrentHeadTrack s =? tgt then []
              else replicate (Z.to_nat (Z.abs (tgt - gCurrentHeadTrack s)))
                     (Delay MS_TRACK_STEP)
                   ++ [Delay MS_HEAD_SETTLE]).
Proof.
  intros Hd s'. subst s'. rewrite seek_run. cbn [fst snd].
  match goal with
  | |- context [emit_all ?evs ?st] =>
      destruct (emit_all_fields evs st)
        as (_&_&_&_&_&_&_&_&_&_&_&E12)
  end.
  cbn [gCurrentHeadTrack trace set_gCurrentHeadTrack]. rewrite E12.
  split; [reflexivity|]. split; [reflexivity|].
  f_equal. f_equal. unfold seek_events.
  destruct (Z.eqb_spec (gCurrentHeadTrack s) tgt) as [Heq|Hne];
    [reflexivity|].
  cbn [negb]. f_equal. f_equal. f_equal.
  rewrite (s08_small (tgt - gCurrentHeadTrack s)) by lia.
  destruct (Z.ltb_spec (tgt - gCurrentHeadTrack s) 0).
  - rewrite s08_small by lia. rewrite u16_small by lia. lia.
  - rewrite u16_small by lia. lia.
Qed.

End Requests.

(** ** The image loader, further *)

Lemma table_row (rows : list (list Z)) (i : nat) :
  table_ok rows = true -> (i < 2)%nat ->
  exists row, rows !! i = Some row /\ length row = 40%nat.
Proof.
  unfold table_ok. intros H Hi. apply andb_true_iff in H as [Hlen Hrows].
  apply Nat.eqb_eq in Hlen.
  destruct (lookup_lt_is_Some_2 rows i ltac:(lia)) as [row Hrow].
  exists row. split; [assumption|].
  rewrite forallb_forall in Hrows. apply Nat.eqb_eq. apply Hrows.
  apply list_elem_of_In. apply (list_elem_of_lookup_2 _ i). assumption.
Qed.

Lemma table_ok_store (rows : list (list Z)) (i j : nat) (v : Z) :
  table_ok (alter (fun row => <[j := v]> row) i rows) = table_ok rows.
Proof.
  unfold table_ok. rewrite length_alter. f_equal.
  revert i. induction rows as [|row rows IH]; intros [|i]; simpl;
    try reflexivity.
  - rewrite length_insert. reflexivity.
  - f_equal. apply IH.
Qed.

Lemma in_gTrackInfo_bounds (d t : Z) :
  in_gTrackInfo d t = true -> 0 <= d < 2 /\ 0 <= t < 40.
Proof.
  unfold in_gTrackInfo. rewrite !andb_true_iff.
  rewrite !Z.leb_le, !Z.ltb_lt. lia.
Qed.

(** The store of line 86, read back. *)
Lemma store_gTrackInfo_lookup (drive tn v : Z) (s : state) :
  table_ok (gTrackInfo s) = true ->
  in_gTrackInfo drive tn = true ->
  exists s',
    store_gTrackInfo drive tn v s = (Val tt, s')
    /\ table_ok (gTrackInfo s') = true
    /\ atari_sector_buffer s' = atari_sector_buffer s
    /\ forall d t, in_gTrackInfo d t = true ->
         gTrackInfo_offset d t s'
         = if (d =? drive) && (t =? tn) then v else gTrackInfo_offset d t s.
Proof.
  intros Hok Hin. unfold store_gTrackInfo. rewrite Hin. unfold modify.
  eexists. split; [reflexivity|]. simpl.
  split; [rewrite table_ok_store; assumption|]. split; [reflexivity|].
  intros d t Hdt. unfold gTrackInfo_offset. simpl.
  apply in_gTrackInfo_bounds in Hin as [Hd Ht].
  apply in_gTrackInfo_bounds in Hdt as [Hd' Ht'].
  destruct (Z.eqb_spec d drive) as [->|Hne]; simpl.
  - rewrite list_lookup_alter_eq.
    destruct (table_row _ (Z.to_nat drive) Hok ltac:(lia)) as (row & Hrow & Hlen).
    rewrite Hrow. simpl.
    destruct (Z.eqb_spec t tn) as [->|Hne].
    + rewrite list_lookup_insert_eq by lia. reflexivity.
    + rewrite list_lookup_insert_ne by lia. reflexivity.
  - rewrite list_lookup_alter_ne by lia. reflexivity.
Qed.

Lemma last_offset_In (tn : Z) (tracks : list (Z * Z)) (o : Z) :
  last_offset tn tracks = Some o -> In (tn, o) tracks.
Proof.
  induction tracks as [|[t o'] rest IH]; simpl; [discriminate|].
  destruct (last_offset tn rest) as [o''|].
  - intros H. right. apply IH. assumption.
  - destruct (Z.eqb_spec t tn) as [->|]; [|discriminate].
    intros H. injection H as ->. left. reflexivity.
Qed.

Section LoaderMore.

Variable P : Platform.

(** Every entry of the walk is a track header that was read, at its
    offset, with its number. *)
Lemma walk_In (fuel : nat) :
  forall off buf tracks t o,
    walk P fuel off buf = Some tracks -> In (t, o) tracks ->
    exists b,
      fst (file_read P o (sizeof_atxTrackHeader P) b) <> 0
      /\ trackNumber
           (as_atxTrackHeader P
              (snd (file_read P o (sizeof_atxTrackHeader P) b))) = t.
Proof.
  induction fuel as [|fuel IH]; intros off buf tracks t o Hw Hin;
    simpl in Hw; [discriminate|].
  destruct (file_read P off (sizeof_atxTrackHeader P) buf) as [n b] eqn:Hr.
  destruct (Z.eqb_spec n 0) as [|Hn].
  - injection Hw as <-. destruct Hin.
  - destruct (walk P fuel _ b) as [rest|] eqn:Hrest; simpl in Hw;
      [|discriminate].
    injection Hw as <-. destruct Hin as [Heq|Hin].
    + injection Heq as <- <-. exists buf. rewrite Hr. simpl.
      split; [assumption|reflexivity].
    + apply (IH _ _ _ _ _ Hrest Hin).
Qed.

(** The loop of lines 81-88 over a list of tracks inside the table: it
    completes, and the table holds for each track number the offset met
    last, the other entries being as before. *)
Lemma track_loop_index (fuel : nat) :
  forall drive off s tracks,
    table_ok (gTrackInfo s) = true ->
    walk P fuel off (atari_sector_buffer s) = Some tracks ->
    forallb (fun t => in_gTrackInfo drive (fst t)) tracks = true ->
    exists s',
      track_loop P fuel drive off s = (Val tt, s')
      /\ table_ok (gTrackInfo s') = true
      /\ forall d t, in_gTrackInfo d t = true ->
           gTrackInfo_offset d t s'
           = match (if d =? drive then last_offset t tracks else None) with
             | Some o => o
             | None => gTrackInfo_offset d t s
             end.
Proof.
  induction fuel as [|fuel IH]; intros drive off s tracks Hok Hw Hb;
    simpl in Hw; [discriminate|].
  simpl. unfold bind at 1. unfold faccess_offset at 1.
  destruct (file_read P off (sizeof_atxTrackHeader P) (atari_sector_buffer s))
    as [n b] eqn:Hr.
  destruct (Z.eqb_spec n 0) as [|Hn].
  - injection Hw as <-. eexists. split; [reflexivity|].
    split; [assumption|]. intros d t _. simpl.
    destruct (d =? drive); reflexivity.
  - destruct (walk P fuel _ b) as [rest|] eqn:Hrest; simpl in Hw;
      [|discriminate].
    injection Hw as <-. simpl in Hb. apply andb_true_iff in Hb as [Hin Hb].
    unfold bind at 1. unfold gets at 1. cbn [atari_sector_buffer emit set_buffer].
    unfold bind at 1.
    set (s1 := emit (FileRead off (sizeof_atxTrackHeader P)) (set_buffer b s)).
    destruct (store_gTrackInfo_lookup drive
                (trackNumber (as_atxTrackHeader P b)) off s1 Hok Hin)
      as (s2 & Hstore & Hok2 & Hbuf2 & Hlook2).
    rewrite Hstore.
    destruct (IH drive (u32 (off + size (as_atxTrackHeader P b))) s2 rest
                Hok2 ltac:(rewrite Hbuf2; exact Hrest) Hb)
      as (s' & Hloop & Hok' & Hlook').
    exists s'. split; [exact Hloop|]. split; [assumption|].
    intros d t Hdt. rewrite (Hlook' d t Hdt), (Hlook2 d t Hdt).
    cbn [last_offset].
    destruct (Z.eqb_spec d drive) as [->|Hne]; simpl; [|reflexivity].
    destruct (last_offset t rest); [reflexivity|].
    rewrite (Z.eqb_sym t). destruct (_ =? t); reflexivity.
Qed.

(** X11.  The track index: when the header is supported, the table has
    its 2 rows of 40 entries, and the list of track headers ends within
    the fuel with every track number inside the table, loadAtxFile returns
    with, for the drive loaded, the offset of the last track header that
    declared each track number (the offset of a header that was read and
    carries that number); the entries of track numbers not met, and the
    rows of the other drive, are as before. *)
Theorem loadAtxFile_builds_track_index (fuel : nat) (drive : Z) (st : state)
    (tracks : list (Z * Z)) :
  supported_header P (header_read P st) ->
  table_ok (gTrackInfo st) = true ->
  walk P fuel (u32 (startData (header_read P st)))
    (snd (file_read P 0 (sizeof_atxFileHeader P) (atari_sector_buffer st)))
    = Some tracks ->
  forallb (fun t => in_gTrackInfo drive (fst t)) tracks = true ->
  let st' := snd (loadAtxFile P fuel drive st) in
  (forall d t, in_gTrackInfo d t = true ->
     gTrackInfo_offset d t st'
     = match (if d =? drive then last_offset t tracks else None) with
       | Some o => o
       | None => gTrackInfo_offset d t st
       end)
  /\ (forall t o, last_offset t tracks = Some o ->
        exists b,
          fst (file_read P o (sizeof_atxTrackHeader P) b) <> 0
          /\ trackNumber
               (as_atxTrackHeader P
                  (snd (file_read P o (sizeof_atxTrackHeader P) b))) = t).
Proof.
  intros Hsup Hok Hw Hb st'. split.
  - subst st'. apply header_rejected_false in Hsup.
    unfold loadAtxFile, header_read in *. unfold_M.
    destruct (file_read P 0 (sizeof_atxFileHeader P) (atari_sector_buffer st))
      as [n b]; cbn [fst snd atari_sector_buffer emit set_buffer] in *.
    rewrite Hsup.
    match goal with
    | |- context [track_loop P fuel drive ?o ?s1] =>
        destruct (track_loop_index fuel drive o s1 tracks Hok Hw Hb)
          as (s' & Hloop & _ & Hlook)
    end.
    rewrite Hloop. cbn [snd]. exact Hlook.
  - intros t o Hlast. apply last_offset_In in Hlast.
    apply (walk_In fuel _ _ _ _ _ Hw Hlast).
Qed.

End LoaderMore.

Section LoaderFrame.

Variable P : Platform.

Lemma store_gTrackInfo_other (drive tn v : Z) (d : nat) :
  d <> Z.to_nat drive ->
  keeps (fun s => (beyond_loader s, gTrackInfo s !! d))
    (store_gTrackInfo drive tn v).
Proof.
  intros Hd s. unfold store_gTrackInfo.
  destruct (in_gTrackInfo drive tn); [|reflexivity].
  unfold modify. simpl. unfold beyond_loader. simpl.
  rewrite list_lookup_alter_ne by (intros E; apply Hd; symmetry; exact E).
  reflexivity.
Qed.

Lemma track_loop_other (d : nat) (drive : Z) (fuel : nat) :
  d <> Z.to_nat drive ->
  forall off,
    keeps (fun s => (beyond_loader s, gTrackInfo s !! d))
      (track_loop P fuel drive off).
Proof.
  intros Hd. induction fuel as [|fuel IH]; intros off; simpl.
  - intros s. reflexivity.
  - repeat first [apply IH | apply (store_gTrackInfo_other _ _ _ _ Hd)
                 | keeps_step].
Qed.

(** X12.  Loading an image for one drive leaves the other drive alone,
    as long as every store of line 86 falls inside the track table: when
    loadAtxFile has come back, or is still in its loop, without a store
    outside the table, the row of the track table of every other drive is
    as before, and so are the head track, the last angle, the objects the
    request arguments point to, and the timer and [rand] oracles (the
    loader takes no sample and calls no [rand]).  A store outside the
    table is left out: in the C program it lands in the next row or in
    another object. *)
Theorem loadAtxFile_keeps_other_drive (fuel : nat) (drive : Z) (st : state)
    (d : nat) :
  faulted (fst (loadAtxFile P fuel drive st)) = false ->
  d <> Z.to_nat drive ->
  beyond_loader (snd (loadAtxFile P fuel drive st)) = beyond_loader st
  /\ gTrackInfo (snd (loadAtxFile P fuel drive st)) !! d
     = gTrackInfo st !! d.
Proof.
  intros _ Hd.
  assert (H : keeps (fun s => (beyond_loader s, gTrackInfo s !! d))
                (loadAtxFile P fuel drive)).
  { unfold loadAtxFile.
    repeat first [apply (track_loop_other d drive fuel Hd) | keeps_step]. }
  specialize (H st). cbv beta in H.
  split.
  - apply (f_equal fst) in H. exact H.
  - apply (f_equal snd) in H. exact H.
Qed.

(** The geometry after the load, in the model (where a store outside the
    table stops the run). *)
Lemma loadAtxFile_geometry_cases (fuel : nat) (drive : Z) (st : state) :
  let st' := snd (loadAtxFile P fuel drive st) in
  (header_rejected P (header_read P st) = true
   /\ gSectorsPerTrack st' = gSectorsPerTrack st
   /\ gBytesPerSector st' = gBytesPerSector st)
  \/ (header_rejected P (header_read P st) = false
      /\ ((gSectorsPerTrack st' = 18 /\ gBytesPerSector st' = 128)
          \/ (gSectorsPerTrack st' = 26 /\ gBytesPerSector st' = 256))).
Proof.
  intros st'. subst st'. unfold loadAtxFile, header_read. unfold_M.
  destruct (file_read P 0 (sizeof_atxFileHeader P) (atari_sector_buffer st))
    as [n b]; cbn [fst snd atari_sector_buffer emit set_buffer].
  destruct (header_rejected P (as_atxFileHeader P b)).
  - left. repeat split; reflexivity.
  - right. split; [reflexivity|].
    match goal with
    | |- context [track_loop P fuel drive ?o ?s1] =>
        destruct (track_loop_geometry P fuel drive o s1) as (G1 & G2 & _);
        destruct (track_loop P fuel drive o s1) as [[[]| v | f |] s2]
    end; cbn [snd] in *; rewrite G1, G2; simpl;
      destruct (density (as_atxFileHeader P b) =? 1);
      [right|left|right|left|right|left|right|left]; split; reflexivity.
Qed.

(** X13.  The geometry is one of three: no image (0, 0), 18 sectors of
    128 bytes, 26 sectors of 256 bytes.  loadAtxFile keeps this as long as
    every store of line 86 falls inside the track table (it has come back,
    or is still in its loop, without a store outside the table), so that
    the bytes of a sector fit the 256-byte sector buffer; and after such a
    load whose header is supported, no sector request divides by zero.  A
    store outside the table is left out: in the C program it may land on
    the geometry itself. *)
Theorem loadAtxFile_keeps_geometry_ok (fuel : nat) (drive : Z) (st : state) :
  geometry_ok st ->
  faulted (fst (loadAtxFile P fuel drive st)) = false ->
  let st' := snd (loadAtxFile P fuel drive st) in
  geometry_ok st'
  /\ gBytesPerSector st' <= 256
  /\ (supported_header P (header_read P st) ->
      forall drive' num,
        fst (loadAtxSector P drive' num st') <> Fault DivisionByZero).
Proof.
  intros Hok _ st'. subst st'.
  pose proof (loadAtxFile_geometry_cases fuel drive st) as Hc.
  cbv zeta in Hc.
  assert (Hg : geometry_ok (snd (loadAtxFile P fuel drive st))).
  { destruct Hc as [(_ & E1 & E2)|(_ & [(E1 & E2)|(E1 & E2)])].
    - unfold geometry_ok. rewrite E1, E2. exact Hok.
    - right; left. split; assumption.
    - right; right. split; assumption. }
  split; [exact Hg|]. split.
  - destruct Hg as [(_ & ->)|[(_ & ->)|(_ & ->)]]; lia.
  - intros Hsup drive' num. apply loadAtxSector_division_defined.
    apply header_rejected_false in Hsup.
    destruct Hc as [(E & _)|(_ & [(E1 & _)|(E1 & _)])].
    + congruence.
    + rewrite E1. discriminate.
    + rewrite E1. discriminate.
Qed.

(** A track header that leads back to its own offset, read again and
    again. *)
Lemma track_loop_stuck (drive off n : Z) (b : list Z) (fuel : nat) :
  n <> 0 ->
  file_read P off (sizeof_atxTrackHeader P) b = (n, b) ->
  in_gTrackInfo drive (trackNumber (as_atxTrackHeader P b)) = true ->
  u32 (off + size (as_atxTrackHeader P b)) = off ->
  forall s,
    file_read P off (sizeof_atxTrackHeader P) (atari_sector_buffer s) = (n, b) ->
    fst (track_loop P fuel drive off s) = OutOfFuel.
Proof.
  intros Hn Hstable Hin Hback.
  induction fuel as [|fuel IH]; intros s Hread; simpl; [reflexivity|].
  unfold bind at 1. unfold faccess_offset at 1. rewrite Hread.
  destruct (Z.eqb_spec n 0); [contradiction|].
  unfold bind at 1. unfold gets at 1.
  cbn [atari_sector_buffer emit set_buffer].
  unfold bind at 1. unfold store_gTrackInfo. rewrite Hin. unfold modify.
  rewrite Hback. apply IH. exact Hstable.
Qed.

(** With a supported header in front of such a track header, the loader
    is in that loop for good. *)
Lemma loadAtxFile_stuck (drive : Z) (st : state) (n : Z) (b : list Z) :
  supported_header P (header_read P st) ->
  file_read P (u32 (startData (header_read P st))) (sizeof_atxTrackHeader P)
    (snd (file_read P 0 (sizeof_atxFileHeader P) (atari_sector_buffer st)))
    = (n, b) ->
  n <> 0 ->
  file_read P (u32 (startData (header_read P st))) (sizeof_atxTrackHeader P) b
    = (n, b) ->
  in_gTrackInfo drive (trackNumber (as_atxTrackHeader P b)) = true ->
  u32 (u32 (startData (header_read P st)) + size (as_atxTrackHeader P b))
    = u32 (startData (header_read P st)) ->
  never_returns P drive st.
Proof.
  intros Hsup Hread Hn Hstable Hin Hback fuel.
  apply header_rejected_false in Hsup.
  unfold loadAtxFile, header_read in *. unfold_M.
  destruct (file_read P 0 (sizeof_atxFileHeader P) (atari_sector_buffer st))
    as [n0 b0]; cbn [fst snd atari_sector_buffer emit set_buffer] in *.
  rewrite Hsup.
  match goal with
  | |- context [track_loop P fuel drive ?o ?s1] =>
      pose proof (track_loop_stuck drive o n b fuel Hn Hstable Hin Hback
                    s1 Hread) as Hstuck;
      destruct (track_loop P fuel drive o s1) as [[[]| v | f |] s2]
  end; simpl in Hstuck; try discriminate. reflexivity.
Qed.

(** X14.  A track of size 0 hangs the loader: when the header is
    supported and the first track header, read successfully and inside the
    table, declares a size that leads back to its own offset (size 0), and
    reading it again gives the same bytes, the loop of lines 81-88 never
    ends: no amount of fuel lets loadAtxFile return. *)
Theorem loadAtxFile_zero_size_track_never_returns (drive : Z) (st : state)
    (n : Z) (b : list Z) :
  supported_header P (header_read P st) ->
  let off := u32 (startData (header_read P st)) in
  file_read P off (sizeof_atxTrackHeader P)
    (snd (file_read P 0 (sizeof_atxFileHeader P) (atari_sector_buffer st)))
    = (n, b) ->
  n <> 0 ->
  file_read P off (sizeof_atxTrackHeader P) b = (n, b) ->
  in_gTrackInfo drive (trackNumber (as_atxTrackHeader P b)) = true ->
  u32 (off + size (as_atxTrackHeader P b)) = off ->
  forall fuel, fst (loadAtxFile P fuel drive st) = OutOfFuel.
Proof.
  intros Hsup off Hread Hn Hstable Hin Hback fuel.
  apply header_rejected_false in Hsup.
  unfold loadAtxFile, header_read in *. unfold_M.
  destruct (file_read P 0 (sizeof_atxFileHeader P) (atari_sector_buffer st))
    as [n0 b0]; cbn [fst snd atari_sector_buffer emit set_buffer] in *.
  rewrite Hsup.
  match goal with
  | |- context [track_loop P fuel drive ?o ?s1] =>
      pose proof (track_loop_stuck drive off n b fuel Hn Hstable Hin Hback
                    s1 Hread) as Hstuck;
      fold off;
      destruct (track_loop P fuel drive off s1) as [[[]| v | f |] s2]
  end; simpl in Hstuck; try discriminate. reflexivity.
Qed.

(** X15.  The store of line 86 has no bound check: when the header is
    supported and the first track header, read successfully, declares a
    track number outside 0..39 (or the drive is not 0 or 1), loadAtxFile
    reaches the store with that index outside the table. *)
Theorem loadAtxFile_first_track_out_of_bounds (fuel : nat) (drive : Z)
    (st : state) :
  supported_header P (header_read P st) ->
  let r := file_read P (u32 (startData (header_read P st)))
             (sizeof_atxTrackHeader P)
             (snd (file_read P 0 (sizeof_atxFileHeader P)
                     (atari_sector_buffer st))) in
  fst r <> 0 ->
  in_gTrackInfo drive (trackNumber (as_atxTrackHeader P (snd r))) = false ->
  fst (loadAtxFile P (S fuel) drive st)
  = Fault (TrackInfoOutOfBounds drive
             (trackNumber (as_atxTrackHeader P (snd r)))).
Proof.
  intros Hsup r Hn Hout. subst r.
  apply header_rejected_false in Hsup.
  unfold loadAtxFile, header_read in *. unfold call. unfold bind at 1.
  unfold faccess_offset at 1.
  destruct (file_read P 0 (sizeof_atxFileHeader P) (atari_sector_buffer st))
    as [n0 b0]; cbn [fst snd] in *.
  unfold bind at 1. unfold gets at 1.
  cbn [atari_sector_buffer emit set_buffer]. rewrite Hsup.
  unfold bind at 1. unfold modify at 1.
  unfold bind at 1. unfold modify at 1.
  unfold bind at 1.
  match goal with
  | |- context [track_loop P (S fuel) drive ?o ?s1] =>
      pose proof (track_loop_out_of_bounds P fuel drive o s1 Hn Hout) as Hf;
      destruct (track_loop P (S fuel) drive o s1) as [[[]| v | f |] s2]
  end; simpl in Hf; try discriminate.
  injection Hf as ->. reflexivity.
Qed.

End LoaderFrame.

(** ** The two loops over the file: which reads they issue *)

Lemma u32_add_l (a b : Z) : u32 (u32 a + b) = u32 (a + b).
Proof. unfold u32. apply Zplus_mod_idemp_l. Qed.

Lemma ext_reads_succ (base sz : Z) (n : nat) :
  ext_reads base sz (S n)
  = ext_reads base sz n ++ [FileRead (u32 (base + Z.of_nat n * sz)) sz].
Proof. unfold ext_reads. rewrite seq_S, map_app. reflexivity. Qed.

Section FileLoops.

Variable P : Platform.

Lemma ext_step_reads (base : Z) (s0 : state) (i : Z) (l : locals)
    (s : state) :
  ext_trace_inv base (sizeof_atxExtendedSectorData P) s0 i l s ->
  exists l' s',
    ext_step P i l s = (Val l', s')
    /\ ext_trace_inv base (sizeof_atxExtendedSectorData P) s0 (i + 1) l' s'.
Proof.
  intros (Hi & Hoff & Htr). unfold ext_step. unfold_M.
  assert (Hnext : u32 (currentFileOffset l + sizeof_atxExtendedSectorData P)
                  = u32 (base + (i + 1) * sizeof_atxExtendedSectorData P)).
  { rewrite Hoff, u32_add_l. f_equal. lia. }
  assert (Htrace : forall b,
             trace (emit (FileRead (currentFileOffset l)
                            (sizeof_atxExtendedSectorData P))
                      (set_buffer b s))
             = trace s0
               ++ ext_reads base (sizeof_atxExtendedSectorData P)
                    (Z.to_nat (i + 1))).
  { intros b. simpl. rewrite Htr, Hoff.
    replace (Z.to_nat (i + 1)) with (S (Z.to_nat i)) by lia.
    rewrite ext_reads_succ, Z2Nat.id by lia.
    rewrite <- app_assoc. reflexivity. }
  destruct (file_read P (currentFileOffset l)
              (sizeof_atxExtendedSectorData P) (atari_sector_buffer s))
    as [n b].
  destruct (n =? 0).
  { eexists; eexists; split; [reflexivity|].
    split; [lia|]. split; [exact Hnext|apply Htrace]. }
  cbn [atari_sector_buffer emit set_buffer].
  destruct ((ext_sectorIndex (as_atxExtendedSectorData P b) =? tgtSectorIndex l)
            && (ext_type (as_atxExtendedSectorData P b) =? 16));
    (eexists; eexists; split; [reflexivity|]);
    (split; [lia|]); (split; [exact Hnext|apply Htrace]).
Qed.

(** X16.  The extended records are read in sequence: when the scan
    counted n > 0 records, lines 193-206 issue exactly n reads of one
    record each, at track offset + largest data offset + bytes per sector
    and every record size further (modulo 2^32), whether the reads succeed
    or not: line 204 advances the offset outside the test of line 197.
    With a count of 0 nothing is read. *)
Theorem weak_data_reads_records_in_sequence (drive : Z) (l : locals)
    (s : state) :
  in_gTrackInfo drive (tgtTrackNumber l - 1) = true ->
  let base := gTrackInfo_offset drive (tgtTrackNumber l - 1) s
              + maxSectorOffset l + gBytesPerSector s in
  let sz := sizeof_atxExtendedSectorData P in
  exists l1 s1,
    weak_data P drive l s = (Val l1, s1)
    /\ trace s1
       = trace s ++ ext_reads base sz (Z.to_nat (extendedDataRecords l))
    /\ (0 < extendedDataRecords l ->
        currentFileOffset l1 = u32 (base + extendedDataRecords l * sz)).
Proof.
  intros Hin base sz. unfold weak_data.
  destruct (Z.gtb_spec (extendedDataRecords l) 0) as [Hpos|Hnon].
  - unfold_M. rewrite Hin. unfold gets. cbv beta iota. fold base.
    match goal with
    | |- context [for_loop ?k 0 ?body ?l0 ?se] =>
        destruct (for_loop_invariant (ext_trace_inv base sz s) body
                    (extendedDataRecords l)
                    (fun j x y _ HI => ext_step_reads base s j x y HI)
                    k 0 l0 se) as (l1 & s1 & Hloop & Hinv)
    end.
    + rewrite Z2Nat.id by lia. lia.
    + split; [lia|]. split.
      * simpl. f_equal. lia.
      * simpl. rewrite app_nil_r. reflexivity.
    + exists l1, s1. split; [exact Hloop|].
      rewrite Z.add_0_l, Z2Nat.id in Hinv by lia.
      destruct Hinv as (_ & Hoff & Htr). split; [exact Htr|].
      intros _. exact Hoff.
  - exists l, s. split; [reflexivity|]. split; [|lia].
    replace (Z.to_nat (extendedDataRecords l)) with O by lia.
    simpl. rewrite app_nil_r. reflexivity.
Qed.

(** X17.  The scan does not get past a sector header it cannot read:
    line 188 advances the offset only after a successful read, so that
    when the read at the current offset fails, and fails again when
    repeated, all the remaining iterations read that same offset and the
    locals end as they were: no later occurrence is met or chosen, the
    status and [gLastAngle] stay. *)
Theorem scan_stops_at_unreadable_header (n : nat) (i : Z) (l : locals)
    (s : state) (b : list Z) :
  file_read P (currentFileOffset l) (sizeof_atxSectorHeader P)
    (atari_sector_buffer s) = (0, b) ->
  file_read P (currentFileOffset l) (sizeof_atxSectorHeader P) b = (0, b) ->
  exists s',
    for_loop n i (scan_step P) l s = (Val l, s')
    /\ gLastAngle s' = gLastAngle s
    /\ out_status s' = out_status s
    /\ trace s'
       = trace s
         ++ replicate n
              (FileRead (currentFileOffset l) (sizeof_atxSectorHeader P)).
Proof.
  intros Hfail Hagain. revert i s Hfail.
  induction n as [|n IH]; intros i s Hfail; simpl.
  - exists s. rewrite app_nil_r. repeat split; reflexivity.
  - unfold bind at 1. unfold scan_step at 1. unfold bind at 1.
    unfold faccess_offset at 1. rewrite Hfail. cbn [Z.eqb]. unfold ret at 1.
    destruct (IH (i + 1)
                (emit (FileRead (currentFileOffset l)
                         (sizeof_atxSectorHeader P)) (set_buffer b s))
                Hagain) as (s' & Hloop & Hang & Hst & Htr).
    exists s'. split; [exact Hloop|].
    split; [exact Hang|]. split; [exact Hst|].
    rewrite Htr. simpl. rewrite <- app_assoc. reflexivity.
Qed.

End FileLoops.

(** ** The largest data offset *)

Section MaxOffset.

Variable P : Platform.

Lemma u32_nonneg (x : Z) : 0 <= u32 x.
Proof. unfold u32. apply Z.mod_pos_bound. lia. Qed.

Lemma scan_step_max (i : Z) (l : locals) (s : state) :
  max_offset_inv i l s ->
  exists l' s',
    scan_step P i l s = (Val l', s') /\ max_offset_inv (i + 1) l' s'.
Proof.
  intros (Hmax & Hle). unfold scan_step. unfold_M.
  destruct (file_read P (currentFileOffset l) (sizeof_atxSectorHeader P)
              (atari_sector_buffer s)) as [n b].
  destruct (n =? 0).
  { eexists; eexists; split; [reflexivity|]. split; assumption. }
  simpl. set (h := as_atxSectorHeader P b).
  destruct (number h =? tgtSectorNumber l).
  2:{ eexists; eexists; split; [reflexivity|]. split; assumption. }
  destruct (replaces_best _ (pTT l)).
  - eexists; eexists; split; [reflexivity|].
    unfold max_offset_inv, taken_max; simpl.
    rewrite fold_left_app. simpl. fold (taken_max (seen l)).
    rewrite <- Hmax. pose proof (u32_nonneg (data h)).
    destruct (Z.gtb_spec (u32 (data h)) (maxSectorOffset l)); split; lia.
  - eexists; eexists; split; [reflexivity|].
    unfold max_offset_inv, taken_max; simpl.
    rewrite fold_left_app. simpl. split; assumption.
Qed.

Lemma scan_sector_list_max (ttn tsn hp off cnt hs : Z) (s : state)
    (l : locals) (s' : state) :
  scan_sector_list P ttn tsn hp off cnt hs s = (Val l, s') ->
  max_offset_inv cnt l s'.
Proof.
  unfold scan_sector_list. unfold_M.
  destruct (file_read P (u32 (off + hs)) (sizeof_atxSectorListHeader P)
              (atari_sector_buffer s)) as [n b].
  cbv beta iota.
  match goal with
  | |- context [for_loop ?k 0 ?body ?l0 ?se] =>
      destruct (for_loop_invariant max_offset_inv body (Z.of_nat k)
                  (fun j x y _ HI => scan_step_max j x y HI)
                  k 0 l0 se) as (l1 & s1 & Hloop & Hinv)
  end.
  - lia.
  - unfold max_offset_inv. simpl. split; [reflexivity|lia].
  - rewrite Hloop. intros H. injection H as <- <-.
    destruct Hinv as (H1 & H2). split; assumption.
Qed.

(** X18.  The offset after which the extended records are looked for:
    at the end of the scan [maxSectorOffset] is the largest data offset
    among the occurrences that replaced the running best (an occurrence of
    the sector that was passed over does not count, whatever its data
    offset), and it is at least the data offset of the occurrence
    chosen. *)
Theorem scan_max_offset_over_taken (drive num : Z) (st : state)
    (l : locals) (st1 : state) :
  locate P drive num st = (Val l, st1) ->
  maxSectorOffset l = taken_max (seen l)
  /\ 0 <= tgtSectorOffset l <= maxSectorOffset l.
Proof.
  rewrite locate_run.
  destruct (gSectorsPerTrack st =? 0); [discriminate|].
  destruct (_ >? 40); [discriminate|].
  destruct (in_gTrackInfo drive _); [|discriminate].
  destruct (track_rejected P drive num st); [discriminate|].
  intros H. apply scan_sector_list_max in H. exact H.
Qed.

End MaxOffset.

(** ** The further properties on the worked inputs *)

Section MoreExamples.
Import Example Run Inputs.


(** X2 on a worked input. *)
Lemma loadAtxSector_not_found_witness :
  fst (loadAtxSector demo 0 3 loaded) = Val 0
  /\ out_status (snd (loadAtxSector demo 0 3 loaded)) = 247
  /\ out_sectorSize (snd (loadAtxSector demo 0 3 loaded)) = 128
  /\ clock (snd (loadAtxSector demo 0 3 loaded)) = 2%nat.
Proof.
  destruct (loadAtxSector_not_found demo 0 3 loaded l_none
              (snd (locate demo 0 3 loaded)))
    as (H1 & H2 & H3 & _ & _ & _ & H7 & _).
  - vm_compute. reflexivity.
  - vm_compute. reflexivity.
  - repeat split; assumption.
Defined.

(** X3 on a worked input. *)
Lemma loadAtxSector_reads_clean_sector_witness :
  fst (loadAtxSector demo 0 2 loaded) = Val 128
  /\ out_status (snd (loadAtxSector demo 0 2 loaded)) = 255
  /\ atari_sector_buffer (snd (loadAtxSector demo 0 2 loaded)) !! 0%nat
     = Some 34.
Proof.
  destruct (loadAtxSector_reads_clean_sector demo 0 2 loaded l_clean
              (snd (locate demo 0 2 loaded)))
    as (_ & H1 & H2 & H3 & _).
  - vm_compute. reflexivity.
  - vm_compute. discriminate.
  - intros i h Hih. vm_compute in Hih.
    destruct Hih as [Heq|[]]. injection Heq as <- <-. reflexivity.
  - vm_compute. discriminate.
  - split; [rewrite H1; vm_compute; reflexivity|].
    split; [exact H3|]. rewrite H2. vm_compute. reflexivity.
Defined.

(** X5 on a worked input. *)
Lemma loadAtxSector_head_track_witness :
  gCurrentHeadTrack (snd (loadAtxSector demo 0 19 loaded)) = 2.
Proof.
  destruct (loadAtxSector_head_track demo 0 19 loaded) as (H & _).
  - vm_compute. split; discriminate.
  - rewrite H. vm_compute. reflexivity.
Defined.

(** X7 on a worked input. *)
Lemma target_decodes_sector_number_witness :
  target 19 loaded = (Val (2, 1), set_out_status 247 loaded).
Proof.
  destruct (target_decodes_sector_number 19 loaded) as (H & _).
  - vm_compute. split; reflexivity.
  - vm_compute. split; discriminate.
  - rewrite H. vm_compute. reflexivity.
Defined.

(** X8 on a worked input. *)
Lemma loadAtxSector_refuses_tracks_41_to_255_witness :
  loadAtxSector demo 0 721 loaded = (Val 0, set_out_status 247 loaded).
Proof.
  apply (loadAtxSector_refuses_tracks_41_to_255 demo 0 721 loaded).
  - vm_compute. split; reflexivity.
  - left. vm_compute. split; [reflexivity|discriminate].
Defined.

(** X9 on a worked input. *)
Lemma loadAtxSector_track_256_indexes_below_table_witness :
  fst (loadAtxSector demo 0 4591 loaded)
  = Fault (TrackInfoOutOfBounds 0 (-1)).
Proof.
  destruct (loadAtxSector_track_256_indexes_below_table demo 0 4591 loaded)
    as (_ & H & _).
  - vm_compute. split; reflexivity.
  - vm_compute. split; [reflexivity|discriminate].
  - rewrite H. reflexivity.
Defined.

(** X10 on a worked input. *)
Lemma seek_steps_by_distance_witness :
  trace (snd (seek 3 power_on))
  = [Delay MS_DRIVE_REQUEST_DELAY; Delay MS_TRACK_STEP; Delay MS_TRACK_STEP;
     Delay MS_TRACK_STEP; Delay MS_HEAD_SETTLE].
Proof.
  destruct (seek_steps_by_distance 3 power_on) as (_ & _ & H).
  - vm_compute. split; discriminate.
  - rewrite H. vm_compute. reflexivity.
Defined.

(** X11 on a worked input. *)
Lemma loadAtxFile_builds_track_index_witness :
  gTrackInfo_offset 0 0 loaded = 48 /\ gTrackInfo_offset 0 1 loaded = 504
  /\ gTrackInfo_offset 0 2 loaded = 0.
Proof.
  destruct (loadAtxFile_builds_track_index demo 8 0 power_on
              [(0, 48); (1, 504)]) as (H & _).
  - vm_compute. repeat split; reflexivity.
  - vm_compute. reflexivity.
  - vm_compute. reflexivity.
  - vm_compute. reflexivity.
  - unfold loaded. rewrite !H by (vm_compute; reflexivity).
    vm_compute. repeat split; reflexivity.
Defined.

(** X12 on a worked input. *)
Lemma loadAtxFile_keeps_other_drive_witness :
  faulted (fst (loadAtxFile demo 8 0 power_on)) = false
  /\ gTrackInfo loaded !! 1%nat = gTrackInfo power_on !! 1%nat.
Proof.
  split; [vm_compute; reflexivity|].
  apply (loadAtxFile_keeps_other_drive demo 8 0 power_on 1).
  - vm_compute. reflexivity.
  - vm_compute. discriminate.
Defined.

(** X13 on a worked input. *)
Lemma loadAtxFile_keeps_geometry_ok_witness :
  faulted (fst (loadAtxFile demo 8 0 power_on)) = false
  /\ geometry_ok loaded /\ gBytesPerSector loaded <= 256.
Proof.
  split; [vm_compute; reflexivity|].
  destruct (loadAtxFile_keeps_geometry_ok demo 8 0 power_on) as (H1 & H2 & _).
  - left. vm_compute. split; reflexivity.
  - vm_compute. reflexivity.
  - split; assumption.
Defined.

(** C9 as worded fails on an image whose header is valid and whose one
    track header declares size 0: the header passes the validation of
    lines 65-72, and loadAtxFile reads that track header again and again,
    so that it returns no value at all. *)
Lemma valid_header_without_return :
  supported_header (platform zero_size_image [])
    (header_read (platform zero_size_image []) power_on)
  /\ never_returns (platform zero_size_image []) 0 power_on.
Proof.
  assert (Hsup : supported_header (platform zero_size_image [])
                   (header_read (platform zero_size_image []) power_on))
    by (vm_compute; repeat split; reflexivity).
  split; [exact Hsup|].
  apply (loadAtxFile_stuck (platform zero_size_image []) 0 power_on 32
           (track_header 0 0 0 ++ replicate 224 0)).
  - exact Hsup.
  - vm_compute. reflexivity.
  - discriminate.
  - vm_compute. reflexivity.
  - vm_compute. reflexivity.
  - vm_compute. reflexivity.
Qed.

(** X14 on a worked input. *)
Lemma loadAtxFile_zero_size_track_never_returns_witness :
  fst (loadAtxFile (platform zero_size_image []) 1000000 0 power_on)
  = OutOfFuel.
Proof.
  refine (loadAtxFile_zero_size_track_never_returns
            (platform zero_size_image []) 0 power_on 32
            (track_header 0 0 0 ++ replicate 224 0) _ _ _ _ _ _ 1000000).
  - vm_compute. repeat split; reflexivity.
  - vm_compute. reflexivity.
  - discriminate.
  - vm_compute. reflexivity.
  - vm_compute. reflexivity.
  - vm_compute. reflexivity.
Defined.

(** X15 on a worked input. *)
Lemma loadAtxFile_first_track_out_of_bounds_witness :
  fst (loadAtxFile (platform track40_image []) 1 0 power_on)
  = Fault (TrackInfoOutOfBounds 0 40).
Proof.
  apply (loadAtxFile_first_track_out_of_bounds
           (platform track40_image []) 0 0 power_on).
  - vm_compute. repeat split; reflexivity.
  - vm_compute. discriminate.
  - vm_compute. reflexivity.
Defined.

(** X16 on a worked input. *)
Lemma weak_data_reads_records_in_sequence_witness :
  trace st_weak = trace st_scan ++ [FileRead 496 8].
Proof.
  destruct (weak_data_reads_records_in_sequence demo 0 l_scan st_scan)
    as (l1 & s1 & Hrun & Htr & _).
  - vm_compute. reflexivity.
  - rewrite weak_data_demo in Hrun.
    pose proof (f_equal snd Hrun) as E. change (st_weak = s1) in E.
    rewrite E, Htr. vm_compute. reflexivity.
Defined.

(** X17 on a worked input. *)
Lemma scan_stops_at_unreadable_header_witness :
  exists s',
    for_loop 3 0 (scan_step demo) l_beyond loaded = (Val l_beyond, s')
    /\ out_status s' = out_status loaded.
Proof.
  destruct (scan_stops_at_unreadable_header demo 3 0 l_beyond loaded
              (atari_sector_buffer loaded))
    as (s' & Hrun & _ & Hst & _).
  - vm_compute. reflexivity.
  - vm_compute. reflexivity.
  - exists s'. split; assumption.
Defined.

(** X18 on a worked input. *)
Lemma scan_max_offset_over_taken_witness :
  maxSectorOffset l_scan = 320 /\ tgtSectorOffset l_scan <= 320.
Proof.
  destruct (scan_max_offset_over_taken demo 0 1 loaded l_scan st_scan)
    as (H1 & _ & H2).
  - exact locate_demo.
  - split; [rewrite H1; reflexivity|].
    change 320 with (maxSectorOffset l_scan). exact H2.
Defined.

End MoreExamples.
